(** * Vehicle parking system: slot registry and fee quote

    A shallow embedding of the three scripts of the parking demo

    - [scripts/main.js]: the shared [sampleSlots] array and [showAlert];
    - [scripts/admin.js]: [addParkingSlot], [removeParkingSlot];
    - [scripts/operator.js]: [handleParking], [handleRemoval],
      [confirmPayment], [cancelRemoval], [hideConfirmation] and the
      [parkingRates] table,

    followed by the properties of the slot allocation and fee rules.

    Every handler runs to completion inside one DOM event, so a handler is a
    function from the page before the event to the page after it.  The text
    typed into a form field and the value of [new Date()] are arguments of the
    handler that reads them. *)

From Stdlib Require Import ZArith QArith Qround Qcanon Ascii String.
From stdpp Require Import base decidable option numbers strings pretty list.

Local Open Scope string_scope.
Local Open Scope Z_scope.
Local Open Scope list_scope.

(** ** Strings: [String.prototype.trim] and [toUpperCase]

    Strings are sequences of ASCII characters.  [trim] removes the white space
    and line terminators of the ASCII range (TAB, LF, VT, FF, CR, SP) from
    both ends; [toUpperCase] maps [a]..[z] to [A]..[Z].  Characters from code
    128 upwards are left as they are by both. *)
Module JsString.

Definition isWhiteSpace (c : ascii) : bool :=
  let n := nat_of_ascii c in
  ((9 <=? n)%nat && (n <=? 13)%nat) || (n =? 32)%nat.

Fixpoint trimStart (s : string) : string :=
  match s with
  | EmptyString => EmptyString
  | String c r => if isWhiteSpace c then trimStart r else s
  end.

Fixpoint trimEnd (s : string) : string :=
  match s with
  | EmptyString => EmptyString
  | String c r =>
      match trimEnd r with
      | EmptyString => if isWhiteSpace c then EmptyString else String c EmptyString
      | r' => String c r'
      end
  end.

Definition trim (s : string) : string := trimEnd (trimStart s).

Definition upperChar (c : ascii) : ascii :=
  let n := nat_of_ascii c in
  if ((97 <=? n)%nat && (n <=? 122)%nat) then ascii_of_nat (n - 32) else c.

Fixpoint toUpperCase (s : string) : string :=
  match s with
  | EmptyString => EmptyString
  | String c r => String (upperChar c) (toUpperCase r)
  end.

End JsString.

(** [value.trim().toUpperCase()], the clean-up applied to the slot id field
    and to both vehicle number fields. *)
Definition normalize (value : string) : string :=
  JsString.toUpperCase (JsString.trim value).

(** ** Numbers

    The numbers of the fee computation are time values in whole milliseconds,
    their differences, the quotient by 3 600 000, its ceiling, and a product
    with a rate that is a multiple of 0.5.  They are modelled as exact
    rationals, with [NaN] for the one non-numeric value that occurs (a rate or
    a date that is [undefined]).  The only inexact operation on doubles in
    that chain is the division, and for differences below 2^53 ms its rounding
    error is smaller than 1/3 600 000, so that [Math.ceil] of the double is
    the ceiling of the exact quotient. *)
Inductive jsnum : Type :=
  | Num (q : Qc)
  | NaN.

Global Instance jsnum_eq_dec : EqDecision jsnum.
Proof. solve_decision. Defined.

Module JsNum.

Definition lift2 (f : Qc → Qc → Qc) (a b : jsnum) : jsnum :=
  match a, b with
  | Num x, Num y => Num (f x y)
  | _, _ => NaN
  end.

Definition sub : jsnum → jsnum → jsnum := lift2 Qcminus.
Definition mul : jsnum → jsnum → jsnum := lift2 Qcmult.

(** Division by a non-zero constant. *)
Definition div_by (d : Qc) (a : jsnum) : jsnum :=
  match a with
  | Num x => Num (x / d)%Qc
  | NaN => NaN
  end.

(** [Math.ceil]. *)
Definition ceil (a : jsnum) : jsnum :=
  match a with
  | Num x => Num (Qc_of_Z (Qceiling x))
  | NaN => NaN
  end.

(** The time value of a [Date]; [new Date(undefined)] is an invalid date,
    whose time value is [NaN]. *)
Definition of_time (t : option Z) : jsnum :=
  match t with
  | Some ms => Num (Qc_of_Z ms)
  | None => NaN
  end.

End JsNum.

(** ** The slot objects of [sampleSlots] *)
Inductive Status : Type :=
  | available   (* 'available' *)
  | occupied.   (* 'occupied' *)

Global Instance Status_eq_dec : EqDecision Status.
Proof. solve_decision. Defined.

(** A slot object.  [vehicleNumber], [vehicleType] and [entryTime] are
    properties that are absent ([None]) until a vehicle is parked and are
    deleted again on payment.  [entryTime] is the time value of the stored
    [Date], in milliseconds. *)
Module Slot.

Record t : Type := mk {
  id : string;
  status : Status;
  vehicleNumber : option string;
  vehicleType : option string;
  entryTime : option Z
}.

Global Instance eq_dec : EqDecision t.
Proof. solve_decision. Defined.

End Slot.

(** The object literal [{ id: slotId, status: 'available' }]. *)
Definition newSlot (slotId : string) : Slot.t :=
  Slot.mk slotId available None None None.

(** The four assignments of [handleParking] on the slot it found. *)
Definition park (vehicleNumber vehicleType : string) (now : Z) (slot : Slot.t) : Slot.t :=
  Slot.mk (Slot.id slot) occupied (Some vehicleNumber) (Some vehicleType) (Some now).

(** The assignment and the three [delete]s of [confirmPayment]. *)
Definition free (slot : Slot.t) : Slot.t :=
  Slot.mk (Slot.id slot) available None None None.

(** ** The page

    [sampleSlots] is the shared array.  Each of its objects is referenced from
    one array position only, so that a write through the reference returned by
    [find] is an update of the list at the index found.

    Of the document, the page keeps the two panels the operator handlers fill
    and show or hide, and the alerts raised so far (most recent first). *)
Record FeeDisplay : Type := mkFeeDisplay {
  fee_vehicle : string;          (* #fee-vehicle *)
  fee_entry_time : option Z;     (* the date shown in #fee-entry-time *)
  fee_total : jsnum              (* the amount shown in #fee-total *)
}.

Record Alert : Type := mkAlert {
  message : string;
  type : string
}.

Record Page : Type := mkPage {
  sampleSlots : list Slot.t;
  parkConfirm : option (string * string);   (* #park-confirm: number, slot; [None] when hidden *)
  feeDisplay : option FeeDisplay;           (* #fee-display; [None] when hidden *)
  alerts : list Alert
}.

(** [showAlert(message, type = 'success')]. *)
Definition showAlert (message type : string) (p : Page) : Page :=
  mkPage (sampleSlots p) (parkConfirm p) (feeDisplay p) (mkAlert message type :: alerts p).

Definition setSlots (slots : list Slot.t) (p : Page) : Page :=
  mkPage slots (parkConfirm p) (feeDisplay p) (alerts p).

Definition setParkConfirm (c : option (string * string)) (p : Page) : Page :=
  mkPage (sampleSlots p) c (feeDisplay p) (alerts p).

Definition setFeeDisplay (d : option FeeDisplay) (p : Page) : Page :=
  mkPage (sampleSlots p) (parkConfirm p) d (alerts p).

(** The array literal at the end of [main.js]; [loaded] is the time at which
    the script ran. *)
Definition initialSlots (loaded : Z) : list Slot.t :=
  [ newSlot "A1";
    newSlot "A2";
    Slot.mk "B1" occupied (Some "ABC123") (Some "car") (Some loaded);
    newSlot "B2" ].

Definition initialPage (loaded : Z) : Page :=
  mkPage (initialSlots loaded) None None [].

(** ** admin.js *)

(** [slot => slot.id === slotId] *)
Definition hasId (slotId : string) (slot : Slot.t) : Prop :=
  Slot.id slot = slotId.

Global Instance hasId_dec slotId slot : Decision (hasId slotId slot).
Proof. unfold hasId. apply _. Defined.

Definition addParkingSlot (slot_id_value : string) (p : Page) : Page :=
  let slotId := normalize slot_id_value in
  if decide (slotId = "") then
    showAlert "Please enter a slot ID" "error" p
  else if decide (Exists (hasId slotId) (sampleSlots p)) then
    showAlert "Slot already exists" "error" p
  else
    showAlert ("Slot " +:+ slotId +:+ " added successfully") "success"
      (setSlots (sampleSlots p ++ [newSlot slotId]) p).

Definition removeParkingSlot (slot_id_value : string) (p : Page) : Page :=
  let slotId := normalize slot_id_value in
  if decide (slotId = "") then
    showAlert "Please enter a slot ID" "error" p
  else
    match list_find (hasId slotId) (sampleSlots p) with
    | None => showAlert "Slot not found" "error" p
    | Some (slotIndex, slot) =>
        if decide (Slot.status slot = occupied) then
          showAlert "Cannot remove an occupied slot" "error" p
        else
          showAlert ("Slot " +:+ slotId +:+ " removed successfully") "success"
            (setSlots (delete slotIndex (sampleSlots p)) p)
    end.

(** ** operator.js *)

(** [const parkingRates = { car: 2.50, motorcycle: 1.50, truck: 4.00 }]:
    the own properties of the object. *)
Definition parkingRates (vehicleType : string) : option Qc :=
  if decide (vehicleType = "car") then Some (Q2Qc (5 # 2))
  else if decide (vehicleType = "motorcycle") then Some (Q2Qc (3 # 2))
  else if decide (vehicleType = "truck") then Some (Q2Qc 4)
  else None.

(** [parkingRates[vehicleSlot.vehicleType]] as an operand of [*].  A key that
    is not an own property yields [undefined] or a member inherited from
    [Object.prototype]; either converts to [NaN]. *)
Definition rateOf (vehicleType : option string) : jsnum :=
  match vehicleType ≫= parkingRates with
  | Some r => Num r
  | None => NaN
  end.

(** [slot => slot.status === 'occupied' && slot.vehicleNumber === vehicleNumber] *)
Definition holds (vehicleNumber : string) (slot : Slot.t) : Prop :=
  Slot.status slot = occupied ∧ Slot.vehicleNumber slot = Some vehicleNumber.

Global Instance holds_dec vehicleNumber slot : Decision (holds vehicleNumber slot).
Proof. unfold holds. apply _. Defined.

(** [slot => slot.status === 'available'] *)
Definition isAvailable (slot : Slot.t) : Prop :=
  Slot.status slot = available.

Global Instance isAvailable_dec slot : Decision (isAvailable slot).
Proof. unfold isAvailable. apply _. Defined.

Definition handleParking (now : Z) (vehicle_number_value vehicle_type_value : string)
    (p : Page) : Page :=
  let vehicleNumber := normalize vehicle_number_value in
  let vehicleType := vehicle_type_value in
  if decide (vehicleNumber = "" ∨ vehicleType = "") then
    showAlert "Please fill in all fields" "error" p
  else if decide (Exists (holds vehicleNumber) (sampleSlots p)) then
    showAlert "This vehicle is already parked" "error" p
  else
    match list_find isAvailable (sampleSlots p) with
    | None => showAlert "No available parking slots" "error" p
    | Some (i, availableSlot) =>
        setParkConfirm (Some (vehicleNumber, Slot.id availableSlot))
          (setSlots (<[i := park vehicleNumber vehicleType now availableSlot]> (sampleSlots p)) p)
    end.

Definition hideConfirmation (p : Page) : Page := setParkConfirm None p.

(** The number of milliseconds in an hour, [1000 * 60 * 60]. *)
Definition msPerHour : Qc := Qc_of_Z (1000 * 60 * 60).

(** Lines 153 to 157 of [handleRemoval]: the fee for the slot found, at exit
    time [now]. *)
Definition parkingFee (vehicleSlot : Slot.t) (now : Z) : jsnum :=
  let entryTime := JsNum.of_time (Slot.entryTime vehicleSlot) in
  let exitTime := JsNum.of_time (Some now) in
  let durationHours := JsNum.div_by msPerHour (JsNum.sub exitTime entryTime) in
  let rate := rateOf (Slot.vehicleType vehicleSlot) in
  JsNum.mul (JsNum.ceil durationHours) rate.

Definition handleRemoval (now : Z) (exit_vehicle_number_value : string) (p : Page) : Page :=
  let vehicleNumber := normalize exit_vehicle_number_value in
  if decide (vehicleNumber = "") then
    showAlert "Please enter a vehicle number" "error" p
  else
    match list_find (holds vehicleNumber) (sampleSlots p) with
    | None => showAlert "Vehicle not found in parking" "error" p
    | Some (_, vehicleSlot) =>
        setFeeDisplay
          (Some (mkFeeDisplay vehicleNumber (Slot.entryTime vehicleSlot)
                   (parkingFee vehicleSlot now))) p
    end.

Definition confirmPayment (exit_vehicle_number_value : string) (p : Page) : Page :=
  let vehicleNumber := normalize exit_vehicle_number_value in
  match list_find (holds vehicleNumber) (sampleSlots p) with
  | Some (slotIndex, slot) =>
      showAlert ("Vehicle " +:+ vehicleNumber +:+ " has exited. Thank you!") "success"
        (setFeeDisplay None
           (setSlots (<[slotIndex := free slot]> (sampleSlots p)) p))
  | None => p
  end.

Definition cancelRemoval (p : Page) : Page := setFeeDisplay None p.

(** ** Events and reachable pages

    The events the two screens dispatch.  Both screens work on a
    [sampleSlots] array that starts as the literal of [main.js]. *)
Inductive Event : Type :=
  | AddSlotClick (slot_id_value : string)
  | RemoveSlotClick (slot_id_value : string)
  | ParkingSubmit (now : Z) (vehicle_number_value vehicle_type_value : string)
  | RemovalSubmit (now : Z) (exit_vehicle_number_value : string)
  | ConfirmClick (exit_vehicle_number_value : string)
  | CancelClick
  | HideClick.

Definition dispatch (e : Event) (p : Page) : Page :=
  match e with
  | AddSlotClick v => addParkingSlot v p
  | RemoveSlotClick v => removeParkingSlot v p
  | ParkingSubmit now n t => handleParking now n t p
  | RemovalSubmit now n => handleRemoval now n p
  | ConfirmClick n => confirmPayment n p
  | CancelClick => cancelRemoval p
  | HideClick => hideConfirmation p
  end.

Inductive reachable : Page → Prop :=
  | reachable_initial loaded : reachable (initialPage loaded)
  | reachable_dispatch e p : reachable p → reachable (dispatch e p).

(** ** Whole hours, as the specification words them

    The ceiling of [ms / 3 600 000] on the integers. *)
Definition ceilingHours (ms : Z) : Z := - ((- ms) / 3600000).

(** The number of occupied slots that hold a given vehicle number. *)
Definition occurrences (vehicleNumber : string) (slots : list Slot.t) : nat :=
  length (filter (holds vehicleNumber) slots).

(** A string made of white space only (possibly empty). *)
Fixpoint allWhiteSpace (s : string) : bool :=
  match s with
  | EmptyString => true
  | String c r => JsString.isWhiteSpace c && allWhiteSpace r
  end.

(** What every reachable [sampleSlots] satisfies: a vehicle number is held by
    at most one occupied slot, no occupied slot holds the empty number, slot
    ids are pairwise distinct, and each id is non-empty and in normal form. *)
Record registry_ok (slots : list Slot.t) : Prop := {
  ok_once : ∀ v : string, (occurrences v slots ≤ 1)%nat;
  ok_number : ¬ Exists (holds "") slots;
  ok_ids : NoDup (Slot.id <$> slots);
  ok_normal : Forall (λ slot, Slot.id slot ≠ "" ∧ normalize (Slot.id slot) = Slot.id slot) slots
}.

(** ** main.js: [calculateDuration]

    [Math.round] and [Math.floor] return an integer or [NaN]; such a value is
    an [option Z], with [None] for [NaN].  As for the fee, the quotients are
    taken on exact rationals. *)
Module JsMath.

(** [Math.round]: the nearest integer, a half rounding up. *)
Definition round (a : jsnum) : option Z :=
  match a with
  | Num x => Some (Qfloor (x + Q2Qc (1 # 2))%Qc)
  | NaN => None
  end.

(** [Math.floor(a / d)] for an integer or [NaN] [a] and a positive constant [d]. *)
Definition floorDiv (a : option Z) (d : Z) : option Z := (λ n, n / d) <$> a.

(** [a % d]: the remainder has the sign of [a]. *)
Definition rem (a : option Z) (d : Z) : option Z := (λ n, Z.rem n d) <$> a.

(** [a < b]; a comparison with [NaN] is false. *)
Definition lt (a : option Z) (b : Z) : bool :=
  match a with
  | Some n => bool_decide (n < b)
  | None => false
  end.

(** The text of an integer or [NaN] inside a template literal. *)
Definition toString (a : option Z) : string :=
  match a with
  | Some n => pretty n
  | None => "NaN"
  end.

End JsMath.

(** The argument [start] of [calculateDuration]: a [Date], whose time value is
    a number of milliseconds or [NaN] for an invalid date, or something that is
    not a [Date]. *)
Inductive StartArg : Type :=
  | ADate (time : option Z)
  | NotADate.

Definition calculateDuration (start : StartArg) (end_ : Z) : string :=
  match start with
  | NotADate => "Invalid time"
  | ADate time =>
      let diffMs := JsNum.sub (JsNum.of_time (Some end_)) (JsNum.of_time time) in
      let diffMins := JsMath.round (JsNum.div_by (Qc_of_Z 60000) diffMs) in
      let diffHrs := JsMath.floorDiv diffMins 60 in
      if JsMath.lt diffMins 60 then
        JsMath.toString diffMins +:+ " minutes"
      else
        JsMath.toString diffHrs +:+ " hours " +:+
        JsMath.toString (JsMath.rem diffMins 60) +:+ " minutes"
  end.

(** Line 162 of [handleRemoval]: the text written to #fee-duration for the
    slot found; [entryTime] there is [new Date(vehicleSlot.entryTime)]. *)
Definition feeDuration (vehicleSlot : Slot.t) (now : Z) : string :=
  calculateDuration (ADate (Slot.entryTime vehicleSlot)) now.

(** ** admin.js: [updateVehiclesTable]

    One row per occupied slot, in array order.  The date cell holds the entry
    date that [formatDate] prints.  [slot.vehicleType.charAt(0)] throws when
    the type is missing; the result is then [None]. *)
Record VehicleRow : Type := mkVehicleRow {
  row_slot : string;
  row_number : string;
  row_type : string;
  row_entry : option Z;
  row_duration : string
}.

Inductive VehiclesTable : Type :=
  | NoVehicles                       (* 'No vehicles currently parked' *)
  | Rows (rows : list VehicleRow).

(** [slot => slot.status === 'occupied'] *)
Definition isOccupied (slot : Slot.t) : Prop :=
  Slot.status slot = occupied.

Global Instance isOccupied_dec slot : Decision (isOccupied slot).
Proof. unfold isOccupied. apply _. Defined.

(** [s.charAt(0).toUpperCase() + s.slice(1)] *)
Definition capitalize (s : string) : string :=
  match s with
  | EmptyString => EmptyString
  | String c r => String (JsString.upperChar c) r
  end.

(** A property inside a template literal; a missing one prints as
    [undefined]. *)
Definition templateText (property : option string) : string :=
  default "undefined" property.

Definition vehicleRow (now : Z) (slot : Slot.t) : option VehicleRow :=
  vehicleType ← Slot.vehicleType slot;
  Some (mkVehicleRow (Slot.id slot) (templateText (Slot.vehicleNumber slot))
          (capitalize vehicleType) (Slot.entryTime slot)
          (calculateDuration (ADate (Slot.entryTime slot)) now)).

Definition updateVehiclesTable (now : Z) (slots : list Slot.t) : option VehiclesTable :=
  let occupiedSlots := filter isOccupied slots in
  if decide (length occupiedSlots = 0%nat) then Some NoVehicles
  else Rows <$> mapM (vehicleRow now) occupiedSlots.

(** ** operator.js: [updateOperatorSlots]

    The content of the slot container: a message when there is no slot, else
    one card per slot, in array order. *)
Record SlotCard : Type := mkSlotCard {
  card_class : string;
  card_id : string;
  card_label : string
}.

Inductive SlotGrid : Type :=
  | EmptyGrid (msg : string)
  | Cards (cards : list SlotCard).

(** The string that [slot.status] is. *)
Definition statusName (st : Status) : string :=
  match st with
  | available => "available"
  | occupied => "occupied"
  end.

Definition operatorCard (slot : Slot.t) : SlotCard :=
  mkSlotCard ("operator-slot " +:+ statusName (Slot.status slot)) (Slot.id slot)
    (if decide (Slot.status slot = available) then "Available" else "Occupied").

Definition updateOperatorSlots (slots : list Slot.t) : SlotGrid :=
  if decide (length slots = 0%nat) then EmptyGrid "No parking slots available"
  else Cards (operatorCard <$> slots).

(** ** Well-formed slots

    What the handlers keep true of every slot: an available slot has none of
    the three vehicle properties; an occupied one has all three, with a
    non-empty number in normal form and a non-empty type. *)
Definition slot_wf (slot : Slot.t) : Prop :=
  match Slot.status slot with
  | available =>
      Slot.vehicleNumber slot = None ∧ Slot.vehicleType slot = None ∧
      Slot.entryTime slot = None
  | occupied =>
      ∃ (number ty : string) (entry : Z),
        Slot.vehicleNumber slot = Some number ∧ Slot.vehicleType slot = Some ty ∧
        Slot.entryTime slot = Some entry ∧
        number ≠ "" ∧ normalize number = number ∧ ty ≠ ""
  end.

(** The events of the operator screen and those of the admin screen. *)
Definition operatorEvent (e : Event) : bool :=
  match e with
  | AddSlotClick _ | RemoveSlotClick _ => false
  | _ => true
  end.

(** The nearest whole minute of a number of milliseconds, a half rounding
    up. *)
Definition nearestMinute (ms : Z) : Z := (ms + 30000) / 60000.

(** * Properties *)

(** ** Normalization *)

Local Arguments JsString.isWhiteSpace : simpl never.
Local Arguments JsString.upperChar : simpl never.

Lemma isWhiteSpace_upperChar (c : ascii) :
  JsString.isWhiteSpace (JsString.upperChar c) = JsString.isWhiteSpace c.
Proof. destruct c as [[] [] [] [] [] [] [] []]; reflexivity. Qed.

Lemma upperChar_idempotent (c : ascii) :
  JsString.upperChar (JsString.upperChar c) = JsString.upperChar c.
Proof. destruct c as [[] [] [] [] [] [] [] []]; reflexivity. Qed.

Lemma toUpperCase_idempotent (s : string) :
  JsString.toUpperCase (JsString.toUpperCase s) = JsString.toUpperCase s.
Proof.
  induction s as [|c r IH]; [reflexivity|].
  cbn. by rewrite upperChar_idempotent, IH.
Qed.

Lemma trimStart_toUpperCase (s : string) :
  JsString.trimStart (JsString.toUpperCase s) = JsString.toUpperCase (JsString.trimStart s).
Proof.
  induction s as [|c r IH]; [reflexivity|].
  cbn. rewrite isWhiteSpace_upperChar.
  destruct (JsString.isWhiteSpace c); [exact IH|reflexivity].
Qed.

Lemma trimEnd_toUpperCase (s : string) :
  JsString.trimEnd (JsString.toUpperCase s) = JsString.toUpperCase (JsString.trimEnd s).
Proof.
  induction s as [|c r IH]; [reflexivity|].
  cbn. rewrite IH, isWhiteSpace_upperChar.
  destruct (JsString.trimEnd r); cbn; [|reflexivity].
  destruct (JsString.isWhiteSpace c); reflexivity.
Qed.

Lemma trim_toUpperCase (s : string) :
  JsString.trim (JsString.toUpperCase s) = JsString.toUpperCase (JsString.trim s).
Proof. unfold JsString.trim. by rewrite trimStart_toUpperCase, trimEnd_toUpperCase. Qed.

Lemma trimEnd_idempotent (s : string) :
  JsString.trimEnd (JsString.trimEnd s) = JsString.trimEnd s.
Proof.
  induction s as [|c r IH]; [reflexivity|].
  cbn. destruct (JsString.trimEnd r) as [|c' t] eqn:Hr.
  - destruct (JsString.isWhiteSpace c) eqn:Hc; cbn; [reflexivity|]. by rewrite Hc.
  - change (JsString.trimEnd (String c (String c' t)))
      with (match JsString.trimEnd (String c' t) with
            | EmptyString =>
                if JsString.isWhiteSpace c then EmptyString else String c EmptyString
            | r' => String c r'
            end).
    by rewrite IH.
Qed.

(** What [trimStart] returns is empty or starts with a character that is not
    white space, and [trimEnd] keeps such a first character. *)
Lemma trimStart_trimEnd_trimStart (s : string) :
  JsString.trimStart (JsString.trimEnd (JsString.trimStart s)) =
    JsString.trimEnd (JsString.trimStart s).
Proof.
  induction s as [|c r IH]; [reflexivity|].
  cbn [JsString.trimStart]. destruct (JsString.isWhiteSpace c) eqn:Hc; [exact IH|].
  cbn [JsString.trimEnd].
  destruct (JsString.trimEnd r); rewrite ?Hc; cbn [JsString.trimStart]; by rewrite Hc.
Qed.

Lemma trim_idempotent (s : string) : JsString.trim (JsString.trim s) = JsString.trim s.
Proof.
  unfold JsString.trim. by rewrite trimStart_trimEnd_trimStart, trimEnd_idempotent.
Qed.

Lemma normalize_idempotent (s : string) : normalize (normalize s) = normalize s.
Proof.
  unfold normalize.
  by rewrite trim_toUpperCase, toUpperCase_idempotent, trim_idempotent.
Qed.

(** Inputs with the same letters up to case normalize alike. *)
Lemma normalize_case (a b : string) :
  JsString.toUpperCase a = JsString.toUpperCase b → normalize a = normalize b.
Proof. unfold normalize. rewrite <- !trim_toUpperCase. by intros ->. Qed.

Lemma trimStart_blank (s : string) :
  allWhiteSpace s = true → JsString.trimStart s = "".
Proof.
  induction s as [|c r IH]; [reflexivity|].
  cbn. intros [Hc Hr]%andb_prop. rewrite Hc. by apply IH.
Qed.

Lemma trimEnd_blank (s : string) :
  allWhiteSpace s = true → JsString.trimEnd s = "".
Proof.
  induction s as [|c r IH]; [reflexivity|].
  cbn. intros [Hc Hr]%andb_prop. by rewrite (IH Hr), Hc.
Qed.

Lemma append_cons (c : ascii) (r s : string) : String c r +:+ s = String c (r +:+ s).
Proof. reflexivity. Qed.

Lemma trimStart_pad (pre s : string) :
  allWhiteSpace pre = true → JsString.trimStart (pre +:+ s) = JsString.trimStart s.
Proof.
  induction pre as [|c r IH]; [reflexivity|].
  rewrite append_cons. cbn [JsString.trimStart allWhiteSpace].
  intros [Hc Hr]%andb_prop. rewrite Hc. by apply IH.
Qed.

Lemma trimEnd_pad (s post : string) :
  allWhiteSpace post = true → JsString.trimEnd (s +:+ post) = JsString.trimEnd s.
Proof.
  intros Hpost. induction s as [|c r IH]; [by apply trimEnd_blank|].
  rewrite append_cons. cbn [JsString.trimEnd]. by rewrite IH.
Qed.

Lemma trim_pad_end (s post : string) :
  allWhiteSpace post = true → JsString.trim (s +:+ post) = JsString.trim s.
Proof.
  intros Hpost. unfold JsString.trim. induction s as [|c r IH].
  - change ("" +:+ post) with post. by rewrite (trimStart_blank post Hpost).
  - rewrite append_cons. cbn [JsString.trimStart].
    destruct (JsString.isWhiteSpace c); [exact IH|].
    rewrite <- append_cons. by apply trimEnd_pad.
Qed.

(** Surrounding white space does not change the normal form. *)
Lemma normalize_pad (pre s post : string) :
  allWhiteSpace pre = true → allWhiteSpace post = true →
  normalize (pre +:+ s +:+ post) = normalize s.
Proof.
  intros Hpre Hpost. unfold normalize. f_equal.
  unfold JsString.trim at 1. rewrite (trimStart_pad pre _ Hpre).
  by apply trim_pad_end.
Qed.

(** ** Arithmetic of the fee *)

Lemma ceilingHours_spec (ms : Z) :
  3600000 * (ceilingHours ms - 1) < ms ≤ 3600000 * ceilingHours ms.
Proof.
  unfold ceilingHours.
  pose proof (Z.div_mod (- ms) 3600000 ltac:(lia)) as Hdm.
  pose proof (Z.mod_pos_bound (- ms) 3600000 ltac:(lia)) as Hb.
  lia.
Qed.

Lemma ceilingHours_unique (ms h : Z) :
  3600000 * (h - 1) < ms ≤ 3600000 * h → ceilingHours ms = h.
Proof.
  intros Hh. pose proof (ceilingHours_spec ms). lia.
Qed.

Lemma ceilingHours_nonneg (ms : Z) : 0 ≤ ms → 0 ≤ ceilingHours ms.
Proof. intros Hms. pose proof (ceilingHours_spec ms). lia. Qed.

Lemma ceilingHours_nonpos (ms : Z) : ms < 0 → ceilingHours ms ≤ 0.
Proof. intros Hms. pose proof (ceilingHours_spec ms). lia. Qed.

(** [Math.ceil] of the rational quotient is the integer ceiling. *)
Lemma Qceiling_hours (d : Z) :
  Qceiling (Qc_of_Z d / msPerHour)%Qc = ceilingHours d.
Proof.
  unfold ceilingHours, Qceiling. f_equal.
  rewrite (Zdiv_Qdiv (- d) 3600000).
  apply Qfloor_comp.
  unfold Qcdiv, Qcmult, Qcinv, msPerHour. simpl.
  rewrite !Qred_correct, inject_Z_opp.
  change (1000 * 60 * 60) with 3600000.
  unfold Qdiv. ring.
Qed.

(** The fee of a slot with a known entry time and a listed vehicle type, for
    any order of the two times. *)
Lemma parkingFee_listed (slot : Slot.t) (entry now : Z) (ty : string) (rate : Qc) :
  Slot.entryTime slot = Some entry →
  Slot.vehicleType slot = Some ty →
  parkingRates ty = Some rate →
  parkingFee slot now = Num (Qc_of_Z (ceilingHours (now - entry)) * rate)%Qc.
Proof.
  intros He Ht Hr. unfold parkingFee, rateOf.
  rewrite He, Ht. cbn -[Qcminus Qcdiv Qcmult Qceiling msPerHour Qc_of_Z parkingRates].
  rewrite Hr. cbn -[Qcminus Qcdiv Qcmult Qceiling msPerHour Qc_of_Z].
  rewrite <- Z2Qc_inj_sub, Qceiling_hours. reflexivity.
Qed.

(** A vehicle type without a rate, or a missing one, makes the fee [NaN]. *)
Lemma parkingFee_unlisted (slot : Slot.t) (now : Z) :
  Slot.vehicleType slot ≫= parkingRates = None →
  parkingFee slot now = NaN.
Proof.
  intros Hr. unfold parkingFee, rateOf. rewrite Hr.
  destruct (Slot.entryTime slot); reflexivity.
Qed.

Lemma Qc_of_Z_0_mul (q : Qc) : (Qc_of_Z 0 * q)%Qc = Qc_of_Z 0.
Proof. rewrite Z2Qc_inj_0. ring. Qed.

(** ** What a handler leaves alone *)

Lemma handleRemoval_slots (now : Z) (value : string) (p : Page) :
  sampleSlots (handleRemoval now value p) = sampleSlots p.
Proof.
  unfold handleRemoval. case_decide; [reflexivity|].
  destruct (list_find _ _) as [[? ?]|]; reflexivity.
Qed.

(** The quote of [handleRemoval] once the vehicle is found. *)
Lemma handleRemoval_found (now : Z) (value : string) (p : Page) (i : nat) (slot : Slot.t) :
  normalize value ≠ "" →
  list_find (holds (normalize value)) (sampleSlots p) = Some (i, slot) →
  handleRemoval now value p =
    setFeeDisplay
      (Some (mkFeeDisplay (normalize value) (Slot.entryTime slot) (parkingFee slot now))) p.
Proof.
  intros Hne Hfind. unfold handleRemoval.
  rewrite decide_False by assumption. rewrite Hfind. reflexivity.
Qed.

(** ** Lists updated at the index [find] returned *)

Lemma insert_middle (slots : list Slot.t) (i : nat) (slot slot' : Slot.t) :
  slots !! i = Some slot →
  slots = take i slots ++ slot :: drop (S i) slots ∧
  <[i := slot']> slots = take i slots ++ slot' :: drop (S i) slots ∧
  delete i slots = take i slots ++ drop (S i) slots.
Proof.
  intros Hi. split_and!.
  - symmetry. by apply take_drop_middle.
  - apply insert_take_drop. by eapply lookup_lt_Some.
  - apply delete_take_drop.
Qed.

Lemma occurrences_app (v : string) (l1 l2 : list Slot.t) :
  occurrences v (l1 ++ l2) = (occurrences v l1 + occurrences v l2)%nat.
Proof. unfold occurrences. by rewrite filter_app, length_app. Qed.

Lemma occurrences_cons (v : string) (slot : Slot.t) (l : list Slot.t) :
  occurrences v (slot :: l) =
    ((if decide (holds v slot) then 1 else 0) + occurrences v l)%nat.
Proof.
  unfold occurrences. rewrite filter_cons. by case_decide.
Qed.

Lemma occurrences_none (v : string) (l : list Slot.t) :
  ¬ Exists (holds v) l → occurrences v l = 0%nat.
Proof.
  intros Hno. unfold occurrences.
  induction l as [|slot l IH]; [reflexivity|].
  rewrite filter_cons. case_decide as Hh.
  - exfalso. apply Hno. by left.
  - apply IH. intros Hex. apply Hno. by right.
Qed.

Lemma parkingRates_positive (ty : string) (rate : Qc) :
  parkingRates ty = Some rate → (0 < rate)%Qc.
Proof.
  unfold parkingRates. intros Hr.
  repeat case_decide; simplify_eq; reflexivity.
Qed.

(** ** Admission *)

(** [find] returns a slot as soon as one is available. *)
Lemma find_available (slots : list Slot.t) :
  Exists isAvailable slots → is_Some (list_find isAvailable slots).
Proof.
  intros (slot & Hin & Hav)%Exists_exists.
  by eapply list_find_elem_of.
Qed.

(** The page after a successful [handleParking]. *)
Lemma handleParking_admits (now : Z) (number ty : string) (p : Page) (i : nat) (slot : Slot.t) :
  normalize number ≠ "" →
  ty ≠ "" →
  ¬ Exists (holds (normalize number)) (sampleSlots p) →
  list_find isAvailable (sampleSlots p) = Some (i, slot) →
  handleParking now number ty p =
    setParkConfirm (Some (normalize number, Slot.id slot))
      (setSlots (<[i := park (normalize number) ty now slot]> (sampleSlots p)) p).
Proof.
  intros Hn Ht Hfresh Hfind. unfold handleParking.
  rewrite decide_False by (intros [?|?]; contradiction).
  rewrite decide_False by assumption.
  rewrite Hfind. reflexivity.
Qed.

(** C1.  With a non-empty normalized number that no occupied slot holds, a
    non-empty type and at least one available slot, [handleParking] takes the
    first available slot of [sampleSlots] in array order (no slot before it is
    available), makes it occupied with the normalized number, the type and
    the current time as entry time, changes no other slot, and shows that
    slot's id in the confirmation. *)
Theorem handleParking_first_available (now : Z) (number ty : string) (p : Page) :
  normalize number ≠ "" →
  ty ≠ "" →
  ¬ Exists (holds (normalize number)) (sampleSlots p) →
  Exists isAvailable (sampleSlots p) →
  ∃ (i : nat) (slot : Slot.t),
    sampleSlots p !! i = Some slot ∧
    Slot.status slot = available ∧
    (∀ (j : nat) (earlier : Slot.t),
        (j < i)%nat → sampleSlots p !! j = Some earlier →
        Slot.status earlier ≠ available) ∧
    sampleSlots (handleParking now number ty p) =
      <[i := Slot.mk (Slot.id slot) occupied (Some (normalize number)) (Some ty) (Some now)]>
        (sampleSlots p) ∧
    sampleSlots (handleParking now number ty p) !! i =
      Some (Slot.mk (Slot.id slot) occupied (Some (normalize number)) (Some ty) (Some now)) ∧
    parkConfirm (handleParking now number ty p) = Some (normalize number, Slot.id slot) ∧
    alerts (handleParking now number ty p) = alerts p.
Proof.
  intros Hn Ht Hfresh Hav.
  destruct (find_available _ Hav) as [[i slot] Hfind].
  exists i, slot.
  rewrite (handleParking_admits now number ty p i slot) by assumption.
  apply list_find_Some in Hfind as (Hi & Hs & Hfirst).
  split_and!; try done.
  - intros j earlier Hj Hlook. by apply (Hfirst j earlier).
  - cbn. apply list_lookup_insert_eq. by eapply lookup_lt_Some.
Qed.

Lemma handleParking_first_available_witness :
  ∃ (i : nat) (slot : Slot.t),
    sampleSlots (initialPage 0) !! i = Some slot ∧
    Slot.status slot = available ∧
    (∀ (j : nat) (earlier : Slot.t),
        (j < i)%nat → sampleSlots (initialPage 0) !! j = Some earlier →
        Slot.status earlier ≠ available) ∧
    sampleSlots (handleParking 42 " xy 77 " "car" (initialPage 0)) =
      <[i := Slot.mk (Slot.id slot) occupied (Some "XY 77") (Some "car") (Some 42)]>
        (sampleSlots (initialPage 0)) ∧
    sampleSlots (handleParking 42 " xy 77 " "car" (initialPage 0)) !! i =
      Some (Slot.mk (Slot.id slot) occupied (Some "XY 77") (Some "car") (Some 42)) ∧
    parkConfirm (handleParking 42 " xy 77 " "car" (initialPage 0)) = Some ("XY 77", Slot.id slot) ∧
    alerts (handleParking 42 " xy 77 " "car" (initialPage 0)) = alerts (initialPage 0).
Proof.
  apply (handleParking_first_available 42 " xy 77 " "car" (initialPage 0)).
  - vm_compute. discriminate.
  - discriminate.
  - apply (bool_decide_unpack _). vm_compute. reflexivity.
  - apply (bool_decide_unpack _). vm_compute. reflexivity.
Defined.

(** ** The fee quote *)

(** C2.  When [handleRemoval] finds the vehicle in a slot with entry time
    [entry], a vehicle type that has a rate, and the exit time [now] is not
    before [entry], the fee it shows is the rate times the number of whole
    hours [h] with [3 600 000 * (h - 1) < now - entry <= 3 600 000 * h], that
    is the ceiling of the elapsed milliseconds over 3 600 000.  A stay of zero
    length costs 0, and 61 minutes of a car cost 5. *)
Theorem handleRemoval_fee_ceiling (now entry : Z) (value ty : string) (rate : Qc)
    (p : Page) (i : nat) (slot : Slot.t) :
  normalize value ≠ "" →
  list_find (holds (normalize value)) (sampleSlots p) = Some (i, slot) →
  Slot.entryTime slot = Some entry →
  Slot.vehicleType slot = Some ty →
  parkingRates ty = Some rate →
  entry ≤ now →
  fee_total <$> feeDisplay (handleRemoval now value p) =
    Some (Num (Qc_of_Z (ceilingHours (now - entry)) * rate)%Qc) ∧
  0 ≤ ceilingHours (now - entry) ∧
  3600000 * (ceilingHours (now - entry) - 1) < now - entry ≤
    3600000 * ceilingHours (now - entry) ∧
  (now = entry →
   fee_total <$> feeDisplay (handleRemoval now value p) = Some (Num (Qc_of_Z 0))) ∧
  (now = entry + 61 * 60000 → ty = "car" →
   fee_total <$> feeDisplay (handleRemoval now value p) = Some (Num (Qc_of_Z 5))).
Proof.
  intros Hne Hfind He Ht Hr Hle.
  rewrite (handleRemoval_found now value p i slot) by assumption.
  cbn [setFeeDisplay feeDisplay fmap option_fmap option_map fee_total].
  rewrite (parkingFee_listed slot entry now ty rate) by assumption.
  split_and!.
  - reflexivity.
  - apply ceilingHours_nonneg. lia.
  - apply ceilingHours_spec.
  - apply ceilingHours_spec.
  - intros ->. rewrite Z.sub_diag.
    change (ceilingHours 0) with 0. by rewrite Qc_of_Z_0_mul.
  - intros -> ->. replace (entry + 61 * 60000 - entry) with 3660000 by lia.
    change (ceilingHours 3660000) with 2.
    unfold parkingRates in Hr. rewrite decide_True in Hr by reflexivity.
    simplify_eq. do 2 f_equal. apply Qc_is_canon. reflexivity.
Qed.

Lemma handleRemoval_fee_ceiling_witness :
  fee_total <$> feeDisplay (handleRemoval 3660000 " abc123" (initialPage 0)) =
    Some (Num (Qc_of_Z 5)).
Proof.
  refine (proj2 (proj2 (proj2 (proj2
    (handleRemoval_fee_ceiling 3660000 0 " abc123" "car" (Q2Qc (5 # 2))
       (initialPage 0) 2%nat
       (Slot.mk "B1" occupied (Some "ABC123") (Some "car") (Some 0))
       _ _ _ _ _ _)))) _ _).
  - vm_compute. discriminate.
  - vm_compute. reflexivity.
  - reflexivity.
  - reflexivity.
  - vm_compute. reflexivity.
  - vm_compute. discriminate.
  - reflexivity.
  - reflexivity.
Defined.

(** C3, as the specification states it, fails: with the clock two hours
    behind the entry time of the car in B1, [handleRemoval] raises no alert
    and shows a fee of -5. *)
Lemma backwards_clock_still_quotes :
  alerts (handleRemoval 0 "ABC123" (initialPage 7200000)) = [] ∧
  fee_total <$> feeDisplay (handleRemoval 0 "ABC123" (initialPage 7200000)) =
    Some (Num (Qc_of_Z (-5))).
Proof.
  split; [reflexivity|].
  vm_compute. do 2 f_equal. apply Qc_is_canon. reflexivity.
Qed.

(** C3, amended.  There is no check of the time range.  With an exit time
    before the entry time and a vehicle type that has a rate,
    [handleRemoval] raises no alert, leaves the slots alone and shows the
    quote as usual: the fee is the rate times the ceiling of the (negative)
    number of hours, which is zero or negative. *)
Theorem handleRemoval_exit_before_entry (now entry : Z) (value ty : string) (rate : Qc)
    (p : Page) (i : nat) (slot : Slot.t) :
  normalize value ≠ "" →
  list_find (holds (normalize value)) (sampleSlots p) = Some (i, slot) →
  Slot.entryTime slot = Some entry →
  Slot.vehicleType slot = Some ty →
  parkingRates ty = Some rate →
  now < entry →
  handleRemoval now value p =
    setFeeDisplay
      (Some (mkFeeDisplay (normalize value) (Some entry)
               (Num (Qc_of_Z (ceilingHours (now - entry)) * rate)%Qc))) p ∧
  ceilingHours (now - entry) ≤ 0 ∧
  (Qc_of_Z (ceilingHours (now - entry)) * rate ≤ 0)%Qc.
Proof.
  intros Hne Hfind He Ht Hr Hlt.
  rewrite (handleRemoval_found now value p i slot) by assumption.
  rewrite (parkingFee_listed slot entry now ty rate) by assumption.
  rewrite He.
  assert (ceilingHours (now - entry) ≤ 0) as Hh by (apply ceilingHours_nonpos; lia).
  split_and!; [reflexivity|assumption|].
  apply parkingRates_positive in Hr.
  apply Z2Qc_inj_le in Hh. rewrite Z2Qc_inj_0 in Hh.
  rewrite <- (Qcmult_0_l rate).
  apply Qcmult_le_compat_r; [assumption|]. by apply Qclt_le_weak.
Qed.

Lemma handleRemoval_exit_before_entry_witness :
  handleRemoval 0 "ABC123" (initialPage 7200000) =
    setFeeDisplay
      (Some (mkFeeDisplay (normalize "ABC123") (Some 7200000)
               (Num (Qc_of_Z (ceilingHours (0 - 7200000)) * Q2Qc (5 # 2))%Qc)))
      (initialPage 7200000) ∧
  ceilingHours (0 - 7200000) ≤ 0 ∧
  (Qc_of_Z (ceilingHours (0 - 7200000)) * Q2Qc (5 # 2) ≤ 0)%Qc.
Proof.
  apply (handleRemoval_exit_before_entry 0 7200000 "ABC123" "car" (Q2Qc (5 # 2))
           (initialPage 7200000) 2%nat
           (Slot.mk "B1" occupied (Some "ABC123") (Some "car") (Some 7200000))).
  - vm_compute. discriminate.
  - vm_compute. reflexivity.
  - reflexivity.
  - reflexivity.
  - vm_compute. reflexivity.
  - lia.
Defined.

(** C4, as the specification states it, fails: a vehicle parked as a "bus",
    a type without a rate, is quoted without any alert, and the fee shown is
    [NaN]. *)
Lemma bus_quote_is_NaN_without_alert :
  alerts (handleRemoval 3600000 "XY1" (handleParking 0 "xy1" "bus" (initialPage 0))) = [] ∧
  feeDisplay (handleRemoval 3600000 "XY1" (handleParking 0 "xy1" "bus" (initialPage 0))) =
    Some (mkFeeDisplay "XY1" (Some 0) NaN).
Proof. split; reflexivity. Qed.

(** C4, amended.  The vehicle type is not checked against [parkingRates].
    For a slot whose type has no rate, [handleRemoval] raises no alert,
    leaves the slots alone and shows the quote panel; the fee in it is
    [NaN], for every entry and exit time. *)
Theorem handleRemoval_unlisted_type (now : Z) (value ty : string)
    (p : Page) (i : nat) (slot : Slot.t) :
  normalize value ≠ "" →
  list_find (holds (normalize value)) (sampleSlots p) = Some (i, slot) →
  Slot.vehicleType slot = Some ty →
  parkingRates ty = None →
  handleRemoval now value p =
    setFeeDisplay (Some (mkFeeDisplay (normalize value) (Slot.entryTime slot) NaN)) p.
Proof.
  intros Hne Hfind Ht Hr.
  rewrite (handleRemoval_found now value p i slot) by assumption.
  rewrite parkingFee_unlisted; [reflexivity|].
  rewrite Ht. exact Hr.
Qed.

Lemma handleRemoval_unlisted_type_witness :
  handleRemoval 3600000 "XY1" (handleParking 0 "xy1" "bus" (initialPage 0)) =
    setFeeDisplay (Some (mkFeeDisplay (normalize "XY1") (Some 0) NaN))
      (handleParking 0 "xy1" "bus" (initialPage 0)).
Proof.
  apply (handleRemoval_unlisted_type 3600000 "XY1" "bus"
           (handleParking 0 "xy1" "bus" (initialPage 0)) 0%nat
           (Slot.mk "A1" occupied (Some "XY1") (Some "bus") (Some 0))).
  - vm_compute. discriminate.
  - vm_compute. reflexivity.
  - reflexivity.
  - vm_compute. reflexivity.
Defined.

(** ** Two-phase release *)

(** [confirmPayment] when the vehicle is found. *)
Lemma confirmPayment_found (value : string) (p : Page) (i : nat) (slot : Slot.t) :
  list_find (holds (normalize value)) (sampleSlots p) = Some (i, slot) →
  confirmPayment value p =
    showAlert ("Vehicle " +:+ normalize value +:+ " has exited. Thank you!") "success"
      (setFeeDisplay None (setSlots (<[i := free slot]> (sampleSlots p)) p)).
Proof. intros Hfind. unfold confirmPayment. rewrite Hfind. reflexivity. Qed.

(** C5.  When [handleRemoval] finds the vehicle and shows its quote, the
    slots are what they were: the slot found is still at its index,
    occupied, with its number, type and entry time.  [cancelRemoval] after
    the quote hides the panel and leaves the slots as they were before the
    quote.  [confirmPayment] after the quote is what changes the slots: the
    slot found becomes available and loses its three vehicle fields. *)
Theorem quote_then_cancel_keeps_slots (now : Z) (value : string) (p : Page)
    (i : nat) (slot : Slot.t) :
  normalize value ≠ "" →
  list_find (holds (normalize value)) (sampleSlots p) = Some (i, slot) →
  feeDisplay (handleRemoval now value p) =
    Some (mkFeeDisplay (normalize value) (Slot.entryTime slot) (parkingFee slot now)) ∧
  sampleSlots (handleRemoval now value p) = sampleSlots p ∧
  sampleSlots (handleRemoval now value p) !! i = Some slot ∧
  Slot.status slot = occupied ∧
  Slot.vehicleNumber slot = Some (normalize value) ∧
  sampleSlots (cancelRemoval (handleRemoval now value p)) = sampleSlots p ∧
  feeDisplay (cancelRemoval (handleRemoval now value p)) = None ∧
  sampleSlots (confirmPayment value (handleRemoval now value p)) =
    <[i := Slot.mk (Slot.id slot) available None None None]> (sampleSlots p) ∧
  sampleSlots (confirmPayment value (handleRemoval now value p)) !! i =
    Some (Slot.mk (Slot.id slot) available None None None) ∧
  sampleSlots (confirmPayment value (handleRemoval now value p)) ≠ sampleSlots p.
Proof.
  intros Hne Hfind.
  rewrite (handleRemoval_found now value p i slot) by assumption.
  rewrite (confirmPayment_found value _ i slot) by exact Hfind.
  cbn [setFeeDisplay showAlert setSlots cancelRemoval sampleSlots feeDisplay].
  apply list_find_Some in Hfind as (Hi & [Hocc Hnum] & _).
  assert (<[i := free slot]> (sampleSlots p) !! i = Some (free slot)) as Hfreed.
  { apply list_lookup_insert_eq. by eapply lookup_lt_Some. }
  split_and!; try done.
  intros Heq. rewrite Heq, Hi in Hfreed.
  injection Hfreed as Hs. rewrite Hs in Hocc. discriminate.
Qed.

Lemma quote_then_cancel_keeps_slots_witness :
  sampleSlots (cancelRemoval (handleRemoval 5 " abc123 " (initialPage 0))) =
    sampleSlots (initialPage 0).
Proof.
  refine (proj1 (proj2 (proj2 (proj2 (proj2 (proj2
    (quote_then_cancel_keeps_slots 5 " abc123 " (initialPage 0) 2%nat
       (Slot.mk "B1" occupied (Some "ABC123") (Some "car") (Some 0)) _ _))))))).
  - vm_compute. discriminate.
  - vm_compute. reflexivity.
Defined.

(** ** The registry invariant *)

Lemma registry_ok_initial (loaded : Z) : registry_ok (initialSlots loaded).
Proof.
  split.
  - intros v. unfold occurrences, initialSlots.
    rewrite !filter_cons, filter_nil.
    repeat case_decide; cbn; try lia;
      match goal with H : holds _ (newSlot _) |- _ => destruct H; discriminate end.
  - apply (bool_decide_unpack _). vm_compute. reflexivity.
  - apply (bool_decide_unpack _). vm_compute. reflexivity.
  - apply (bool_decide_unpack _). vm_compute. reflexivity.
Qed.

(** Replacing one slot by a slot of the same id that holds nothing, or a
    non-empty number nobody held. *)
Lemma registry_ok_replace (l1 l2 : list Slot.t) (slot slot' : Slot.t) :
  registry_ok (l1 ++ slot :: l2) →
  Slot.id slot' = Slot.id slot →
  (∀ v, holds v slot' → v ≠ "" ∧ ¬ Exists (holds v) (l1 ++ slot :: l2)) →
  registry_ok (l1 ++ slot' :: l2).
Proof.
  intros [Honce Hnum Hids Hnormal] Hid Hnew. split.
  - intros v. specialize (Honce v).
    rewrite occurrences_app, occurrences_cons in Honce |- *.
    destruct (decide (holds v slot')) as [Hh|Hh].
    + destruct (Hnew v Hh) as [_ Hfresh].
      rewrite (occurrences_none v l1), (occurrences_none v l2); [lia| |].
      * intros Hex. apply Hfresh. apply Exists_app. right. by right.
      * intros Hex. apply Hfresh. apply Exists_app. by left.
    + case_decide; lia.
  - rewrite Exists_app, Exists_cons in Hnum |- *.
    intros [H1|[Hs|H2]]; [tauto| |tauto].
    by destruct (Hnew "" Hs).
  - rewrite fmap_app, fmap_cons in Hids |- *. by rewrite Hid.
  - rewrite Forall_app, Forall_cons in Hnormal |- *. by rewrite Hid.
Qed.

Lemma registry_ok_delete (l1 l2 : list Slot.t) (slot : Slot.t) :
  registry_ok (l1 ++ slot :: l2) → registry_ok (l1 ++ l2).
Proof.
  intros [Honce Hnum Hids Hnormal]. split.
  - intros v. specialize (Honce v).
    rewrite occurrences_app, occurrences_cons in Honce.
    rewrite occurrences_app. lia.
  - rewrite Exists_app, Exists_cons in Hnum. rewrite Exists_app. tauto.
  - rewrite fmap_app, fmap_cons in Hids. rewrite fmap_app.
    apply NoDup_app in Hids as (H1 & Hdisj & H2).
    apply NoDup_cons in H2 as [_ H2].
    apply NoDup_app. split_and!; [done| |done].
    intros x Hx Hx2. apply (Hdisj x Hx). by right.
  - rewrite Forall_app, Forall_cons in Hnormal. rewrite Forall_app. tauto.
Qed.

Lemma registry_ok_push (slots : list Slot.t) (slotId : string) :
  registry_ok slots →
  ¬ Exists (hasId slotId) slots →
  slotId ≠ "" →
  normalize slotId = slotId →
  registry_ok (slots ++ [newSlot slotId]).
Proof.
  intros [Honce Hnum Hids Hnormal] Hnew Hne Hnf. split.
  - intros v. specialize (Honce v).
    rewrite occurrences_app, occurrences_cons.
    rewrite decide_False by (intros [? _]; discriminate).
    unfold occurrences at 2. rewrite filter_nil. cbn. lia.
  - rewrite Exists_app, Exists_cons, Exists_nil.
    intros [?|[[? _]|[]]]; [contradiction|discriminate].
  - rewrite fmap_app. apply NoDup_app. split_and!; [done| |apply NoDup_singleton].
    intros x Hx Hx'. apply list_elem_of_singleton in Hx'. subst x.
    apply Hnew. apply list_elem_of_fmap in Hx as (slot & Hid & Hin).
    apply Exists_exists. exists slot. split; [done|]. by symmetry.
  - apply Forall_app. split; [done|]. by apply Forall_singleton.
Qed.

(** Every handler keeps the invariant. *)
Lemma registry_ok_dispatch (e : Event) (p : Page) :
  registry_ok (sampleSlots p) → registry_ok (sampleSlots (dispatch e p)).
Proof.
  intros Hok. destruct e as [v|v|now n ty|now n|n| |]; cbn [dispatch].
  - unfold addParkingSlot. repeat case_decide; cbn; try done.
    apply registry_ok_push; [done..|]. apply normalize_idempotent.
  - unfold removeParkingSlot. case_decide; [done|].
    destruct (list_find _ _) as [[i slot]|] eqn:Hfind; [|done].
    case_decide; [done|]. cbn.
    apply list_find_Some in Hfind as (Hi & _ & _).
    destruct (insert_middle _ i slot slot Hi) as (Hsplit & _ & ->).
    rewrite Hsplit in Hok. by eapply registry_ok_delete.
  - unfold handleParking. case_decide as Hblank; [done|].
    case_decide as Hheld; [done|].
    destruct (list_find _ _) as [[i slot]|] eqn:Hfind; [|done]. cbn.
    apply list_find_Some in Hfind as (Hi & _ & _).
    destruct (insert_middle _ i slot (park (normalize n) ty now slot) Hi)
      as (Hsplit & -> & _).
    rewrite Hsplit in Hok, Hheld.
    apply (registry_ok_replace _ _ slot); [done|done|].
    intros v [_ Hv]. cbn in Hv. injection Hv as <-. split; [|done].
    intros Hempty. apply Hblank. by left.
  - by rewrite handleRemoval_slots.
  - unfold confirmPayment.
    destruct (list_find _ _) as [[i slot]|] eqn:Hfind; [|done]. cbn.
    apply list_find_Some in Hfind as (Hi & _ & _).
    destruct (insert_middle _ i slot (free slot) Hi) as (Hsplit & -> & _).
    rewrite Hsplit in Hok.
    apply (registry_ok_replace _ _ slot); [done|done|].
    intros v [Hst _]. discriminate.
  - done.
  - done.
Qed.

Lemma reachable_registry_ok (p : Page) :
  reachable p → registry_ok (sampleSlots p).
Proof.
  induction 1 as [loaded|e p _ IH].
  - apply registry_ok_initial.
  - by apply registry_ok_dispatch.
Qed.

(** [handleParking] on a number that is already parked. *)
Lemma handleParking_duplicate (now : Z) (number ty : string) (p : Page) :
  normalize number ≠ "" →
  ty ≠ "" →
  Exists (holds (normalize number)) (sampleSlots p) →
  handleParking now number ty p = showAlert "This vehicle is already parked" "error" p.
Proof.
  intros Hn Ht Hheld. unfold handleParking.
  rewrite decide_False by (intros [?|?]; contradiction).
  by rewrite decide_True.
Qed.

(** A held number is not empty once the invariant holds. *)
Lemma held_number_nonempty (slots : list Slot.t) (v : string) :
  registry_ok slots → Exists (holds v) slots → v ≠ "".
Proof. intros Hok Hheld ->. by apply (ok_number _ Hok). Qed.

(** After a successful admission the number is held. *)
Lemma handleParking_then_held (now : Z) (number ty : string) (p : Page) :
  normalize number ≠ "" →
  ty ≠ "" →
  ¬ Exists (holds (normalize number)) (sampleSlots p) →
  Exists isAvailable (sampleSlots p) →
  Exists (holds (normalize number)) (sampleSlots (handleParking now number ty p)).
Proof.
  intros Hn Ht Hfresh Hav.
  destruct (find_available _ Hav) as [[i slot] Hfind].
  rewrite (handleParking_admits now number ty p i slot) by assumption. cbn.
  apply list_find_Some in Hfind as (Hi & _ & _).
  apply Exists_exists. exists (park (normalize number) ty now slot). split.
  - apply list_elem_of_lookup. exists i.
    apply list_lookup_insert_eq. by eapply lookup_lt_Some.
  - by split.
Qed.

(** C6.  On every page reachable from the initial one by the handlers of the
    two screens, each vehicle number is held by at most one occupied slot.
    There, [handleParking] with a number that some occupied slot already
    holds leaves the slots as they are, and with a non-empty type it raises
    'This vehicle is already parked' and changes nothing else; in particular
    a second admission of a number just admitted, in any spelling that
    normalizes to it, is refused. *)
Theorem reachable_number_once (p : Page) :
  reachable p →
  (∀ v : string, (occurrences v (sampleSlots p) ≤ 1)%nat) ∧
  (∀ (now : Z) (number ty : string),
      Exists (holds (normalize number)) (sampleSlots p) →
      sampleSlots (handleParking now number ty p) = sampleSlots p ∧
      (ty ≠ "" →
       handleParking now number ty p =
         showAlert "This vehicle is already parked" "error" p)) ∧
  (∀ (now now' : Z) (number number' ty ty' : string),
      normalize number ≠ "" →
      ty ≠ "" →
      ¬ Exists (holds (normalize number)) (sampleSlots p) →
      Exists isAvailable (sampleSlots p) →
      normalize number' = normalize number →
      ty' ≠ "" →
      handleParking now' number' ty' (handleParking now number ty p) =
        showAlert "This vehicle is already parked" "error" (handleParking now number ty p)).
Proof.
  intros Hreach. pose proof (reachable_registry_ok p Hreach) as Hok.
  split_and!.
  - apply (ok_once _ Hok).
  - intros now number ty Hheld.
    assert (normalize number ≠ "") as Hn by (by eapply held_number_nonempty).
    split.
    + unfold handleParking. case_decide; [done|]. by rewrite decide_True.
    + intros Ht. by apply handleParking_duplicate.
  - intros now now' number number' ty ty' Hn Ht Hfresh Hav Hsame Ht'.
    apply handleParking_duplicate; [congruence|done|].
    rewrite Hsame. by apply handleParking_then_held.
Qed.

Lemma reachable_number_once_witness :
  handleParking 9 " abc123" "truck" (handleParking 3 "k1" "car" (initialPage 0)) =
    showAlert "This vehicle is already parked" "error"
      (handleParking 3 "k1" "car" (initialPage 0)).
Proof.
  refine (proj2 (proj1 (proj2
    (reachable_number_once (handleParking 3 "k1" "car" (initialPage 0)) _))
    9 " abc123" "truck" _) _).
  - apply (reachable_dispatch (ParkingSubmit 3 "k1" "car")). apply reachable_initial.
  - apply (bool_decide_unpack _). vm_compute. reflexivity.
  - discriminate.
Defined.

(** ** Removing and adding slots *)

(** C7, as the specification states it, fails on a blank id: no slot has the
    empty id, yet the alert is 'Please enter a slot ID', not 'Slot not
    found'. *)
Lemma removeParkingSlot_blank_not_reported_missing :
  ¬ Exists (hasId (normalize "  ")) (sampleSlots (initialPage 0)) ∧
  removeParkingSlot "  " (initialPage 0) =
    showAlert "Please enter a slot ID" "error" (initialPage 0) ∧
  removeParkingSlot "  " (initialPage 0) ≠
    showAlert "Slot not found" "error" (initialPage 0).
Proof.
  split_and!.
  - apply (bool_decide_unpack _). vm_compute. reflexivity.
  - reflexivity.
  - vm_compute. discriminate.
Qed.

(** C7, amended.  [removeParkingSlot] looks at the normalized id.  A blank
    id raises 'Please enter a slot ID'.  A non-blank id that no slot has
    raises 'Slot not found'; if the first slot with the id is occupied the
    alert is 'Cannot remove an occupied slot'.  Each of the three leaves the
    page as it was but for the alert, so whenever an error alert is raised the
    slots are unchanged.  Otherwise the slot found is spliced out: the slots
    before and after it stay, in order, and on a reachable page no slot with
    that id is left. *)
Theorem removeParkingSlot_cases (value : string) (p : Page) :
  (normalize value = "" →
   removeParkingSlot value p = showAlert "Please enter a slot ID" "error" p) ∧
  (normalize value ≠ "" →
   ¬ Exists (hasId (normalize value)) (sampleSlots p) →
   removeParkingSlot value p = showAlert "Slot not found" "error" p) ∧
  (∀ (i : nat) (slot : Slot.t),
      normalize value ≠ "" →
      list_find (hasId (normalize value)) (sampleSlots p) = Some (i, slot) →
      Slot.status slot = occupied →
      removeParkingSlot value p = showAlert "Cannot remove an occupied slot" "error" p) ∧
  (∀ (i : nat) (slot : Slot.t),
      normalize value ≠ "" →
      list_find (hasId (normalize value)) (sampleSlots p) = Some (i, slot) →
      Slot.status slot = available →
      sampleSlots p = take i (sampleSlots p) ++ slot :: drop (S i) (sampleSlots p) ∧
      sampleSlots (removeParkingSlot value p) =
        take i (sampleSlots p) ++ drop (S i) (sampleSlots p) ∧
      alerts (removeParkingSlot value p) =
        mkAlert ("Slot " +:+ normalize value +:+ " removed successfully") "success"
          :: alerts p ∧
      (reachable p →
       ¬ Exists (hasId (normalize value)) (sampleSlots (removeParkingSlot value p)))) ∧
  (∀ msg : string,
      alerts (removeParkingSlot value p) = mkAlert msg "error" :: alerts p →
      sampleSlots (removeParkingSlot value p) = sampleSlots p).
Proof.
  split_and!.
  - intros Hblank. unfold removeParkingSlot. by rewrite decide_True.
  - intros Hne Hnone. unfold removeParkingSlot. rewrite decide_False by done.
    destruct (list_find _ _) as [[i slot]|] eqn:Hfind; [|done].
    exfalso. apply Hnone. apply list_find_Some in Hfind as (Hi & Hid & _).
    apply Exists_exists. exists slot. split; [|done].
    by eapply list_elem_of_lookup_2.
  - intros i slot Hne Hfind Hocc. unfold removeParkingSlot.
    rewrite decide_False by done. rewrite Hfind. by rewrite decide_True.
  - intros i slot Hne Hfind Hav. unfold removeParkingSlot.
    rewrite decide_False by done. rewrite Hfind.
    rewrite decide_False by (rewrite Hav; discriminate). cbn.
    apply list_find_Some in Hfind as (Hi & Hid & _).
    destruct (insert_middle _ i slot slot Hi) as (Hsplit & _ & Hdel).
    split_and!; [done..|].
    intros Hreach Hex. rewrite Hdel in Hex.
    pose proof (ok_ids _ (reachable_registry_ok p Hreach)) as Hids.
    rewrite Hsplit, fmap_app, fmap_cons in Hids.
    apply NoDup_app in Hids as (_ & Hdisj & [Hnotin _]%NoDup_cons).
    apply Exists_app in Hex as [Hex|Hex];
      apply Exists_exists in Hex as (other & Hin & Hother);
      unfold hasId in Hid, Hother.
    + apply (Hdisj (Slot.id other)).
      * apply list_elem_of_fmap. by exists other.
      * rewrite Hother, <- Hid. by left.
    + apply Hnotin. rewrite Hid, <- Hother. apply list_elem_of_fmap. by exists other.
  - intros msg. unfold removeParkingSlot. case_decide; [done|].
    destruct (list_find _ _) as [[i slot]|]; [|done].
    case_decide; [done|]. cbn. intros Heq. discriminate.
Qed.

Lemma removeParkingSlot_cases_witness :
  sampleSlots (initialPage 0) =
    take 1 (sampleSlots (initialPage 0)) ++ newSlot "A2" :: drop 2 (sampleSlots (initialPage 0)) ∧
  sampleSlots (removeParkingSlot " a2 " (initialPage 0)) =
    take 1 (sampleSlots (initialPage 0)) ++ drop 2 (sampleSlots (initialPage 0)) ∧
  alerts (removeParkingSlot " a2 " (initialPage 0)) =
    mkAlert ("Slot " +:+ normalize " a2 " +:+ " removed successfully") "success"
      :: alerts (initialPage 0) ∧
  (reachable (initialPage 0) →
   ¬ Exists (hasId (normalize " a2 ")) (sampleSlots (removeParkingSlot " a2 " (initialPage 0)))).
Proof.
  refine (proj1 (proj2 (proj2 (proj2 (removeParkingSlot_cases " a2 " (initialPage 0)))))
            1%nat (newSlot "A2") _ _ _).
  - vm_compute. discriminate.
  - vm_compute. reflexivity.
  - reflexivity.
Defined.

(** C9, as the specification states it, fails on a blank id: the alert is
    'Please enter a slot ID', not 'Slot already exists'. *)
Lemma addParkingSlot_blank_not_reported_duplicate :
  normalize "   " = "" ∧
  addParkingSlot "   " (initialPage 0) =
    showAlert "Please enter a slot ID" "error" (initialPage 0) ∧
  addParkingSlot "   " (initialPage 0) ≠
    showAlert "Slot already exists" "error" (initialPage 0).
Proof.
  split_and!.
  - reflexivity.
  - reflexivity.
  - vm_compute. discriminate.
Qed.

(** C9, amended.  [addParkingSlot] looks at the normalized id.  A blank id
    raises 'Please enter a slot ID'.  A non-blank id that some slot already
    has raises 'Slot already exists', whatever the case and the surrounding
    white space of the input; neither changes the slots.  Otherwise a new
    available slot with the normalized id and no vehicle fields is pushed at
    the end of [sampleSlots], after which every input that normalizes to the
    same id is refused as existing.  On a reachable page the ids are in
    normal form, so an input that is the id of a slot up to the case of its
    letters and to white space around it is refused as existing. *)
Theorem addParkingSlot_cases (value : string) (p : Page) :
  (normalize value = "" →
   addParkingSlot value p = showAlert "Please enter a slot ID" "error" p) ∧
  (normalize value ≠ "" →
   Exists (hasId (normalize value)) (sampleSlots p) →
   addParkingSlot value p = showAlert "Slot already exists" "error" p) ∧
  (normalize value ≠ "" →
   ¬ Exists (hasId (normalize value)) (sampleSlots p) →
   sampleSlots (addParkingSlot value p) =
     sampleSlots p ++ [Slot.mk (normalize value) available None None None] ∧
   alerts (addParkingSlot value p) =
     mkAlert ("Slot " +:+ normalize value +:+ " added successfully") "success" :: alerts p ∧
   (∀ again : string,
       normalize again = normalize value →
       addParkingSlot again (addParkingSlot value p) =
         showAlert "Slot already exists" "error" (addParkingSlot value p))) ∧
  (reachable p →
   ∀ (slot : Slot.t) (pre variant post : string),
     slot ∈ sampleSlots p →
     allWhiteSpace pre = true →
     allWhiteSpace post = true →
     JsString.toUpperCase variant = JsString.toUpperCase (Slot.id slot) →
     addParkingSlot (pre +:+ variant +:+ post) p =
       showAlert "Slot already exists" "error" p).
Proof.
  assert (∀ v q, normalize v ≠ "" → Exists (hasId (normalize v)) (sampleSlots q) →
                 addParkingSlot v q = showAlert "Slot already exists" "error" q) as Hdup.
  { intros v q Hne Hex. unfold addParkingSlot.
    rewrite decide_False by done. by rewrite decide_True. }
  split_and!.
  - intros Hblank. unfold addParkingSlot. by rewrite decide_True.
  - apply Hdup.
  - intros Hne Hnew.
    assert (addParkingSlot value p =
            showAlert ("Slot " +:+ normalize value +:+ " added successfully") "success"
              (setSlots (sampleSlots p ++ [newSlot (normalize value)]) p)) as ->.
    { unfold addParkingSlot. rewrite decide_False by done. by rewrite decide_False. }
    split_and!; [done..|].
    intros again Hsame. apply Hdup; [congruence|]. cbn.
    rewrite Hsame. apply Exists_app. right. by left.
  - intros Hreach slot pre variant post Hin Hpre Hpost Hcase.
    pose proof (ok_normal _ (reachable_registry_ok p Hreach)) as Hnormal.
    rewrite Forall_forall in Hnormal. destruct (Hnormal slot Hin) as [Hne Hnf].
    assert (normalize (pre +:+ variant +:+ post) = Slot.id slot) as Hnorm.
    { rewrite normalize_pad by done. by rewrite (normalize_case _ _ Hcase). }
    apply Hdup; rewrite Hnorm; [done|].
    apply Exists_exists. by exists slot.
Qed.

Lemma addParkingSlot_cases_witness :
  addParkingSlot " b2 " (initialPage 0) =
    showAlert "Slot already exists" "error" (initialPage 0).
Proof.
  refine (proj1 (proj2 (addParkingSlot_cases " b2 " (initialPage 0))) _ _).
  - vm_compute. discriminate.
  - apply (bool_decide_unpack _). vm_compute. reflexivity.
Defined.

(** ** Admission, quote and payment in sequence *)

(** After an admission, [find] by any spelling of the number returns the slot
    that was chosen. *)
Lemma find_after_parking (now : Z) (number value ty : string) (p : Page)
    (i : nat) (slot : Slot.t) :
  normalize number ≠ "" →
  ty ≠ "" →
  ¬ Exists (holds (normalize number)) (sampleSlots p) →
  list_find isAvailable (sampleSlots p) = Some (i, slot) →
  normalize value = normalize number →
  list_find (holds (normalize value)) (sampleSlots (handleParking now number ty p)) =
    Some (i, park (normalize number) ty now slot).
Proof.
  intros Hn Ht Hfresh Hfind Hsame.
  rewrite (handleParking_admits now number ty p i slot) by assumption. cbn.
  rewrite Hsame.
  apply list_find_Some in Hfind as (Hi & _ & _).
  apply list_find_Some. split_and!.
  - apply list_lookup_insert_eq. by eapply lookup_lt_Some.
  - by split.
  - intros j other Hj Hlt Hheld.
    rewrite list_lookup_insert_ne in Hj by lia.
    apply Hfresh. apply Exists_exists. exists other. split; [|done].
    by eapply list_elem_of_lookup_2.
Qed.

Lemma insert_insert_same (slots : list Slot.t) (i : nat) (a b : Slot.t) :
  <[i := b]> (<[i := a]> slots) = <[i := b]> slots.
Proof. apply list_insert_insert_eq. Qed.

(** C8, as the specification states it, fails on the initial page: it has
    available slots, but ABC123 is parked in B1, so the admission is refused
    and no slot is chosen. *)
Lemma admit_refused_on_initial_page :
  Exists isAvailable (sampleSlots (initialPage 0)) ∧
  handleParking 1 "abc123" "car" (initialPage 0) =
    showAlert "This vehicle is already parked" "error" (initialPage 0).
Proof.
  split.
  - apply (bool_decide_unpack _). vm_compute. reflexivity.
  - reflexivity.
Qed.

(** C8, amended.  On a page with an available slot on which no occupied slot
    holds ABC123, [handleParking] of "abc123" as a "car" takes the first
    available slot and confirms it; [handleRemoval] with any input that
    normalizes to ABC123 then finds that slot and shows its quote without an
    alert; and [confirmPayment] with the same input makes that slot available
    again, without vehicle number, type or entry time, every other slot being
    as it was before the admission. *)
Theorem admit_release_confirm (now now' : Z) (value : string) (p : Page) :
  Exists isAvailable (sampleSlots p) →
  ¬ Exists (holds "ABC123") (sampleSlots p) →
  normalize value = "ABC123" →
  ∃ (i : nat) (slot : Slot.t),
    list_find isAvailable (sampleSlots p) = Some (i, slot) ∧
    parkConfirm (handleParking now "abc123" "car" p) = Some ("ABC123", Slot.id slot) ∧
    sampleSlots (handleParking now "abc123" "car" p) !! i =
      Some (Slot.mk (Slot.id slot) occupied (Some "ABC123") (Some "car") (Some now)) ∧
    handleRemoval now' value (handleParking now "abc123" "car" p) =
      setFeeDisplay
        (Some (mkFeeDisplay "ABC123" (Some now)
                 (Num (Qc_of_Z (ceilingHours (now' - now)) * Q2Qc (5 # 2))%Qc)))
        (handleParking now "abc123" "car" p) ∧
    sampleSlots (confirmPayment value
                   (handleRemoval now' value (handleParking now "abc123" "car" p))) =
      <[i := Slot.mk (Slot.id slot) available None None None]> (sampleSlots p) ∧
    sampleSlots (confirmPayment value
                   (handleRemoval now' value (handleParking now "abc123" "car" p))) !! i =
      Some (Slot.mk (Slot.id slot) available None None None).
Proof.
  intros Hav Hfresh Hvalue.
  destruct (find_available _ Hav) as [[i slot] Hfind].
  exists i, slot.
  assert (normalize "abc123" = "ABC123") as Hnum by reflexivity.
  assert (normalize "abc123" ≠ "") as Hn by (rewrite Hnum; discriminate).
  assert ("car" ≠ "") as Ht by discriminate.
  rewrite <- Hnum in Hfresh.
  pose proof (find_after_parking now "abc123" value "car" p i slot Hn Ht Hfresh Hfind
                ltac:(congruence)) as Hfound.
  assert (normalize value ≠ "") as Hv by (rewrite Hvalue; discriminate).
  assert (list_find (holds (normalize value))
            (sampleSlots (handleRemoval now' value (handleParking now "abc123" "car" p))) =
          Some (i, park (normalize "abc123") "car" now slot)) as Hfound'
    by (rewrite handleRemoval_slots; exact Hfound).
  rewrite (confirmPayment_found value _ i _ Hfound').
  rewrite (handleRemoval_found now' value _ i _ Hv Hfound).
  rewrite (parkingFee_listed _ now now' "car" (Q2Qc (5 # 2))) by reflexivity.
  rewrite (handleParking_admits now "abc123" "car" p i slot) by assumption.
  cbn [setFeeDisplay setParkConfirm showAlert setSlots sampleSlots parkConfirm
       feeDisplay alerts].
  rewrite Hvalue, Hnum, insert_insert_same.
  pose proof Hfind as (Hi & _ & _)%list_find_Some.
  pose proof (lookup_lt_Some _ _ _ Hi) as Hlt.
  split_and!; try done.
  - by apply list_lookup_insert_eq.
  - by apply list_lookup_insert_eq.
Qed.

Lemma admit_release_confirm_witness :
  ∃ (i : nat) (slot : Slot.t),
    list_find isAvailable [newSlot "A1"] = Some (i, slot) ∧
    parkConfirm (handleParking 0 "abc123" "car" (mkPage [newSlot "A1"] None None [])) =
      Some ("ABC123", Slot.id slot) ∧
    sampleSlots (handleParking 0 "abc123" "car" (mkPage [newSlot "A1"] None None [])) !! i =
      Some (Slot.mk (Slot.id slot) occupied (Some "ABC123") (Some "car") (Some 0)) ∧
    handleRemoval 3660000 "ABC123"
        (handleParking 0 "abc123" "car" (mkPage [newSlot "A1"] None None [])) =
      setFeeDisplay
        (Some (mkFeeDisplay "ABC123" (Some 0)
                 (Num (Qc_of_Z (ceilingHours (3660000 - 0)) * Q2Qc (5 # 2))%Qc)))
        (handleParking 0 "abc123" "car" (mkPage [newSlot "A1"] None None [])) ∧
    sampleSlots (confirmPayment "ABC123"
                   (handleRemoval 3660000 "ABC123"
                      (handleParking 0 "abc123" "car" (mkPage [newSlot "A1"] None None [])))) =
      <[i := Slot.mk (Slot.id slot) available None None None]> [newSlot "A1"] ∧
    sampleSlots (confirmPayment "ABC123"
                   (handleRemoval 3660000 "ABC123"
                      (handleParking 0 "abc123" "car" (mkPage [newSlot "A1"] None None [])))) !! i =
      Some (Slot.mk (Slot.id slot) available None None None).
Proof.
  apply (admit_release_confirm 0 3660000 "ABC123" (mkPage [newSlot "A1"] None None [])).
  - apply (bool_decide_unpack _). vm_compute. reflexivity.
  - apply (bool_decide_unpack _). vm_compute. reflexivity.
  - reflexivity.
Defined.

(** ** The vehicle type on admission *)

(** C10.  [handleParking] asks of the type only that it is not empty.  With
    a non-empty normalized number that is not parked and an available slot,
    every non-empty type is accepted, whether [parkingRates] lists it or not,
    and the chosen slot stores the type exactly as given, while the number is
    stored normalized. *)
Theorem handleParking_type_verbatim (now : Z) (number ty : string) (p : Page) :
  normalize number ≠ "" →
  ty ≠ "" →
  ¬ Exists (holds (normalize number)) (sampleSlots p) →
  Exists isAvailable (sampleSlots p) →
  ∃ (i : nat) (slot : Slot.t),
    list_find isAvailable (sampleSlots p) = Some (i, slot) ∧
    handleParking now number ty p =
      setParkConfirm (Some (normalize number, Slot.id slot))
        (setSlots
           (<[i := Slot.mk (Slot.id slot) occupied (Some (normalize number)) (Some ty) (Some now)]>
              (sampleSlots p)) p) ∧
    Slot.vehicleType <$> sampleSlots (handleParking now number ty p) !! i = Some (Some ty) ∧
    Slot.vehicleNumber <$> sampleSlots (handleParking now number ty p) !! i =
      Some (Some (normalize number)).
Proof.
  intros Hn Ht Hfresh Hav.
  destruct (find_available _ Hav) as [[i slot] Hfind].
  exists i, slot.
  rewrite (handleParking_admits now number ty p i slot) by assumption.
  apply list_find_Some in Hfind as Hspec. destruct Hspec as (Hi & _ & _).
  pose proof (lookup_lt_Some _ _ _ Hi) as Hlt.
  cbn [setParkConfirm setSlots sampleSlots].
  rewrite list_lookup_insert_eq by done.
  by split_and!.
Qed.

Lemma handleParking_type_verbatim_witness :
  parkingRates " Mini bus " = None ∧
  normalize " Mini bus " ≠ " Mini bus " ∧
  ∃ (i : nat) (slot : Slot.t),
    list_find isAvailable (sampleSlots (initialPage 0)) = Some (i, slot) ∧
    handleParking 7 "q 9" " Mini bus " (initialPage 0) =
      setParkConfirm (Some (normalize "q 9", Slot.id slot))
        (setSlots
           (<[i := Slot.mk (Slot.id slot) occupied (Some (normalize "q 9"))
                     (Some " Mini bus ") (Some 7)]>
              (sampleSlots (initialPage 0))) (initialPage 0)) ∧
    Slot.vehicleType <$> sampleSlots (handleParking 7 "q 9" " Mini bus " (initialPage 0)) !! i =
      Some (Some " Mini bus ") ∧
    Slot.vehicleNumber <$> sampleSlots (handleParking 7 "q 9" " Mini bus " (initialPage 0)) !! i =
      Some (Some (normalize "q 9")).
Proof.
  split; [reflexivity|]. split; [vm_compute; discriminate|].
  apply (handleParking_type_verbatim 7 "q 9" " Mini bus " (initialPage 0)).
  - vm_compute. discriminate.
  - discriminate.
  - apply (bool_decide_unpack _). vm_compute. reflexivity.
  - apply (bool_decide_unpack _). vm_compute. reflexivity.
Defined.

(** * Further properties of the scripts *)

(** ** The duration text *)

Lemma nearestMinute_spec (ms : Z) :
  60000 * nearestMinute ms - 30000 ≤ ms < 60000 * nearestMinute ms + 30000.
Proof.
  unfold nearestMinute.
  pose proof (Z.div_mod (ms + 30000) 60000 ltac:(lia)) as Hdm.
  pose proof (Z.mod_pos_bound (ms + 30000) 60000 ltac:(lia)) as Hb.
  lia.
Qed.

(** [Math.round] of the rational number of minutes is the nearest whole
    minute. *)
Lemma round_minutes (d : Z) :
  JsMath.round (JsNum.div_by (Qc_of_Z 60000) (Num (Qc_of_Z d))) = Some (nearestMinute d).
Proof.
  unfold JsMath.round, JsNum.div_by, nearestMinute. f_equal.
  rewrite (Zdiv_Qdiv (d + 30000) 60000).
  apply Qfloor_comp.
  unfold Qcplus, Qcdiv, Qcmult, Qcinv, Q2Qc. simpl.
  rewrite !Qred_correct, inject_Z_plus.
  unfold Qdiv. field.
Qed.

Lemma calculateDuration_valid (start end_ : Z) :
  calculateDuration (ADate (Some start)) end_ =
    if bool_decide (nearestMinute (end_ - start) < 60) then
      pretty (nearestMinute (end_ - start)) +:+ " minutes"
    else
      pretty (nearestMinute (end_ - start) / 60) +:+ " hours " +:+
      pretty (Z.rem (nearestMinute (end_ - start)) 60) +:+ " minutes".
Proof.
  unfold calculateDuration.
  cbn [JsNum.of_time JsNum.sub JsNum.lift2].
  rewrite <- Z2Qc_inj_sub, round_minutes. reflexivity.
Qed.

(** X1.  For two valid dates [calculateDuration] rounds the elapsed time to
    the nearest whole minute [N] (a half minute rounds up).  Below 60 minutes
    the text is "N minutes"; from 60 minutes on it is "H hours M minutes" with
    [N = 60 * H + M] and [0 <= M < 60]. *)
Theorem calculateDuration_text (start end_ : Z) :
  60000 * nearestMinute (end_ - start) - 30000 ≤ end_ - start
    < 60000 * nearestMinute (end_ - start) + 30000 ∧
  (nearestMinute (end_ - start) < 60 →
   calculateDuration (ADate (Some start)) end_ =
     pretty (nearestMinute (end_ - start)) +:+ " minutes") ∧
  (60 ≤ nearestMinute (end_ - start) →
   ∃ H M : Z,
     nearestMinute (end_ - start) = 60 * H + M ∧ 1 ≤ H ∧ 0 ≤ M < 60 ∧
     calculateDuration (ADate (Some start)) end_ =
       pretty H +:+ " hours " +:+ pretty M +:+ " minutes").
Proof.
  split_and!.
  - apply nearestMinute_spec.
  - apply nearestMinute_spec.
  - intros Hlt. rewrite calculateDuration_valid. by rewrite bool_decide_true.
  - intros Hge. rewrite calculateDuration_valid.
    rewrite bool_decide_false by lia.
    set (N := nearestMinute (end_ - start)) in *.
    exists (N / 60), (Z.rem N 60).
    rewrite Z.rem_mod_nonneg by lia.
    pose proof (Z.div_mod N 60 ltac:(lia)).
    pose proof (Z.mod_pos_bound N 60 ltac:(lia)).
    split_and!; try done; lia.
Qed.

Lemma calculateDuration_text_witness :
  ∃ H M : Z,
    nearestMinute (7529999 - 0) = 60 * H + M ∧ 1 ≤ H ∧ 0 ≤ M < 60 ∧
    calculateDuration (ADate (Some 0)) 7529999 =
      pretty H +:+ " hours " +:+ pretty M +:+ " minutes".
Proof.
  refine (proj2 (proj2 (calculateDuration_text 0 7529999)) _).
  vm_compute. discriminate.
Defined.

(** X2.  The texts off the normal path.  When the end is before the start
    and more than half a minute away, the text is a negative number of
    minutes, never hours.  An invalid date is a [Date], so the text is not
    'Invalid time': every number in it is [NaN]. *)
Theorem calculateDuration_edges (start end_ : Z) :
  (end_ - start < - 30000 →
   nearestMinute (end_ - start) < 0 ∧
   calculateDuration (ADate (Some start)) end_ =
     pretty (nearestMinute (end_ - start)) +:+ " minutes") ∧
  calculateDuration (ADate None) end_ = "NaN hours NaN minutes" ∧
  calculateDuration (ADate None) end_ ≠ calculateDuration NotADate end_.
Proof.
  split_and!.
  - intros Hneg. pose proof (nearestMinute_spec (end_ - start)).
    assert (nearestMinute (end_ - start) < 0) as HN by lia.
    split; [done|].
    rewrite calculateDuration_valid. rewrite bool_decide_true by lia. done.
  - reflexivity.
  - discriminate.
Qed.

Lemma calculateDuration_edges_witness :
  nearestMinute (0 - 7200000) < 0 ∧
  calculateDuration (ADate (Some 7200000)) 0 =
    pretty (nearestMinute (0 - 7200000)) +:+ " minutes".
Proof.
  refine (proj1 (calculateDuration_edges 7200000 0) _). lia.
Defined.

(** ** Hours shown and hours billed *)

Lemma ceilingHours_mono (a b : Z) : a ≤ b → ceilingHours a ≤ ceilingHours b.
Proof.
  intros Hab. pose proof (ceilingHours_spec a). pose proof (ceilingHours_spec b). lia.
Qed.

(** X3.  The quote of [handleRemoval] shows a duration and a fee that are
    rounded differently: the duration to the nearest minute, the fee up to
    the hour.  For an exit not before the entry, the hours billed are the
    whole hours [H] of the duration shown or one more, and they are one more
    whenever the minutes shown are not zero. *)
Theorem billed_hours_and_shown_hours (slot : Slot.t) (entry now : Z) (ty : string) (rate : Qc) :
  Slot.entryTime slot = Some entry →
  Slot.vehicleType slot = Some ty →
  parkingRates ty = Some rate →
  entry ≤ now →
  parkingFee slot now = Num (Qc_of_Z (ceilingHours (now - entry)) * rate)%Qc ∧
  feeDuration slot now =
    (if bool_decide (nearestMinute (now - entry) < 60) then
       pretty (nearestMinute (now - entry)) +:+ " minutes"
     else
       pretty (nearestMinute (now - entry) / 60) +:+ " hours " +:+
       pretty (nearestMinute (now - entry) `mod` 60) +:+ " minutes") ∧
  nearestMinute (now - entry) / 60 ≤ ceilingHours (now - entry)
    ≤ nearestMinute (now - entry) / 60 + 1 ∧
  (0 < nearestMinute (now - entry) `mod` 60 →
   ceilingHours (now - entry) = nearestMinute (now - entry) / 60 + 1).
Proof.
  intros He Ht Hr Hle.
  rewrite (parkingFee_listed slot entry now ty rate) by assumption.
  unfold feeDuration. rewrite He, calculateDuration_valid.
  set (d := now - entry) in *.
  assert (0 ≤ d) as Hd by (unfold d; lia).
  pose proof (nearestMinute_spec d) as HN.
  pose proof (ceilingHours_spec d) as Hc.
  assert (0 ≤ nearestMinute d) as HN0 by lia.
  rewrite Z.rem_mod_nonneg by lia.
  pose proof (Z.div_mod (nearestMinute d) 60 ltac:(lia)) as Hdm.
  pose proof (Z.mod_pos_bound (nearestMinute d) 60 ltac:(lia)) as Hm.
  split_and!; try done; lia.
Qed.

Lemma billed_hours_and_shown_hours_witness :
  parkingFee (Slot.mk "B1" occupied (Some "ABC123") (Some "car") (Some 0)) 3620000 =
    Num (Qc_of_Z (ceilingHours (3620000 - 0)) * Q2Qc (5 # 2))%Qc ∧
  feeDuration (Slot.mk "B1" occupied (Some "ABC123") (Some "car") (Some 0)) 3620000 =
    (if bool_decide (nearestMinute (3620000 - 0) < 60) then
       pretty (nearestMinute (3620000 - 0)) +:+ " minutes"
     else
       pretty (nearestMinute (3620000 - 0) / 60) +:+ " hours " +:+
       pretty (nearestMinute (3620000 - 0) `mod` 60) +:+ " minutes") ∧
  nearestMinute (3620000 - 0) / 60 ≤ ceilingHours (3620000 - 0)
    ≤ nearestMinute (3620000 - 0) / 60 + 1 ∧
  (0 < nearestMinute (3620000 - 0) `mod` 60 →
   ceilingHours (3620000 - 0) = nearestMinute (3620000 - 0) / 60 + 1).
Proof.
  apply (billed_hours_and_shown_hours
           (Slot.mk "B1" occupied (Some "ABC123") (Some "car") (Some 0)) 0 3620000
           "car" (Q2Qc (5 # 2))).
  - reflexivity.
  - reflexivity.
  - vm_compute. reflexivity.
  - lia.
Defined.

(** ** The fee as a function of the exit time *)

(** X4.  For a slot with an entry time and a vehicle type that has a rate,
    the fee is a number at every exit time and never decreases when the exit
    is later. *)
Theorem parkingFee_monotone (slot : Slot.t) (entry now later : Z) (ty : string) (rate : Qc) :
  Slot.entryTime slot = Some entry →
  Slot.vehicleType slot = Some ty →
  parkingRates ty = Some rate →
  now ≤ later →
  ∃ fee fee' : Qc,
    parkingFee slot now = Num fee ∧ parkingFee slot later = Num fee' ∧ (fee ≤ fee')%Qc.
Proof.
  intros He Ht Hr Hle.
  rewrite !(parkingFee_listed slot entry _ ty rate) by assumption.
  eexists _, _. split_and!; [reflexivity..|].
  apply Qcmult_le_compat_r.
  - apply (proj1 (Z2Qc_inj_le _ _)). apply ceilingHours_mono. lia.
  - apply Qclt_le_weak. by eapply parkingRates_positive.
Qed.

Lemma parkingFee_monotone_witness :
  ∃ fee fee' : Qc,
    parkingFee (Slot.mk "B1" occupied (Some "ABC123") (Some "truck") (Some 10)) 20 = Num fee ∧
    parkingFee (Slot.mk "B1" occupied (Some "ABC123") (Some "truck") (Some 10)) 3600011 = Num fee' ∧
    (fee ≤ fee')%Qc.
Proof.
  apply (parkingFee_monotone _ 10 20 3600011 "truck" (Q2Qc 4)).
  - reflexivity.
  - reflexivity.
  - vm_compute. reflexivity.
  - lia.
Defined.

(** X5.  Every stay longer than zero is charged at least one hour: after as
    little as a millisecond, and up to a full hour, the fee of a listed
    vehicle type is exactly its hourly rate; later it is more. *)
Theorem parkingFee_first_hour (slot : Slot.t) (entry now : Z) (ty : string) (rate : Qc) :
  Slot.entryTime slot = Some entry →
  Slot.vehicleType slot = Some ty →
  parkingRates ty = Some rate →
  entry < now →
  (now - entry ≤ 3600000 → parkingFee slot now = Num rate) ∧
  (3600000 < now - entry →
   ∃ fee : Qc, parkingFee slot now = Num fee ∧ (rate < fee)%Qc).
Proof.
  intros He Ht Hr Hlt.
  rewrite (parkingFee_listed slot entry now ty rate) by assumption.
  pose proof (ceilingHours_spec (now - entry)) as Hc.
  split.
  - intros Hle. replace (ceilingHours (now - entry)) with 1 by lia.
    rewrite Z2Qc_inj_1. f_equal. ring.
  - intros Hgt. eexists. split; [reflexivity|].
    rewrite <- (Qcmult_1_l rate) at 1. rewrite <- Z2Qc_inj_1.
    apply Qcmult_lt_compat_r.
    + by eapply parkingRates_positive.
    + apply (proj1 (Z2Qc_inj_lt _ _)). lia.
Qed.

Lemma parkingFee_first_hour_witness :
  parkingFee (Slot.mk "B1" occupied (Some "ABC123") (Some "motorcycle") (Some 0)) 1 =
    Num (Q2Qc (3 # 2)).
Proof.
  refine (proj1 (parkingFee_first_hour
                   (Slot.mk "B1" occupied (Some "ABC123") (Some "motorcycle") (Some 0))
                   0 1 "motorcycle" (Q2Qc (3 # 2)) _ _ _ _) _).
  - reflexivity.
  - reflexivity.
  - vm_compute. reflexivity.
  - lia.
  - lia.
Defined.

(** ** Failures leave the page alone *)

Lemma alerts_not_cons (a : Alert) (l : list Alert) : l ≠ a :: l.
Proof.
  intros Heq. apply (f_equal length) in Heq. cbn in Heq. lia.
Qed.

(** X6.  Whatever the event, when the handler raises an error alert that
    alert is all that happened: slots, confirmation panel and fee panel are
    as before.  Validation comes before every state change. *)
Theorem error_alert_changes_nothing_else (e : Event) (p : Page) (msg : string) :
  alerts (dispatch e p) = mkAlert msg "error" :: alerts p →
  dispatch e p = showAlert msg "error" p.
Proof.
  destruct e as [v|v|now n ty|now n|n| |]; cbn [dispatch].
  - unfold addParkingSlot. repeat case_decide; cbn; intros Heq;
      injection Heq as Heq; try discriminate; by rewrite Heq.
  - unfold removeParkingSlot. case_decide.
    { cbn. intros Heq. injection Heq as Heq. by rewrite Heq. }
    destruct (list_find _ _) as [[i slot]|].
    + case_decide; cbn; intros Heq; injection Heq as Heq;
        try discriminate; by rewrite Heq.
    + cbn. intros Heq. injection Heq as Heq. by rewrite Heq.
  - unfold handleParking. case_decide.
    { cbn. intros Heq. injection Heq as Heq. by rewrite Heq. }
    case_decide.
    { cbn. intros Heq. injection Heq as Heq. by rewrite Heq. }
    destruct (list_find _ _) as [[i slot]|]; cbn; intros Heq.
    + by apply alerts_not_cons in Heq.
    + injection Heq as Heq. by rewrite Heq.
  - unfold handleRemoval. case_decide.
    { cbn. intros Heq. injection Heq as Heq. by rewrite Heq. }
    destruct (list_find _ _) as [[i slot]|]; cbn; intros Heq.
    + by apply alerts_not_cons in Heq.
    + injection Heq as Heq. by rewrite Heq.
  - unfold confirmPayment.
    destruct (list_find _ _) as [[i slot]|]; cbn; intros Heq.
    + injection Heq as Heq. discriminate.
    + by apply alerts_not_cons in Heq.
  - cbn. intros Heq. by apply alerts_not_cons in Heq.
  - cbn. intros Heq. by apply alerts_not_cons in Heq.
Qed.

Lemma error_alert_changes_nothing_else_witness :
  dispatch (RemoveSlotClick "b1") (initialPage 0) =
    showAlert "Cannot remove an occupied slot" "error" (initialPage 0).
Proof.
  apply (error_alert_changes_nothing_else (RemoveSlotClick "b1") (initialPage 0)).
  reflexivity.
Defined.

(** ** The outcomes of the operator handlers *)

Lemma not_available_find (slots : list Slot.t) :
  ¬ Exists isAvailable slots → list_find isAvailable slots = None.
Proof. intros Hno. apply list_find_None. by apply Forall_Exists_neg. Qed.

Lemma not_held_find (v : string) (slots : list Slot.t) :
  ¬ Exists (holds v) slots → list_find (holds v) slots = None.
Proof. intros Hno. apply list_find_None. by apply Forall_Exists_neg. Qed.

Lemma held_find (v : string) (slots : list Slot.t) :
  Exists (holds v) slots → is_Some (list_find (holds v) slots).
Proof.
  intros (slot & Hin & Hh)%Exists_exists. by eapply list_find_elem_of.
Qed.





(** ** Payment *)

Lemma occurrences_pos (v : string) (slots : list Slot.t) :
  Exists (holds v) slots → (1 ≤ occurrences v slots)%nat.
Proof.
  induction 1 as [slot l Hh|slot l _ IH]; rewrite occurrences_cons.
  - rewrite decide_True by done. lia.
  - lia.
Qed.

(** Once the holder of a number is freed, nobody holds the number. *)
Lemma freed_number_gone (v : string) (slots : list Slot.t) (i : nat) (slot : Slot.t) :
  (occurrences v slots ≤ 1)%nat →
  list_find (holds v) slots = Some (i, slot) →
  ¬ Exists (holds v) (<[i := free slot]> slots).
Proof.
  intros Honce (Hi & Hh & _)%list_find_Some.
  destruct (insert_middle _ i slot (free slot) Hi) as (Hsplit & -> & _).
  rewrite Hsplit, occurrences_app, occurrences_cons in Honce.
  rewrite decide_True in Honce by done.
  rewrite Exists_app, Exists_cons.
  intros [H1|[[Hst _]|H2]].
  - apply occurrences_pos in H1. lia.
  - discriminate.
  - apply occurrences_pos in H2. lia.
Qed.

(** X9.  [confirmPayment] signals nothing when it finds no vehicle: the page
    stays exactly as it is.  On a reachable page that is the case for a blank
    input, and for a second click: after one payment for a number, a second
    [confirmPayment] for it changes nothing, because no other slot held the
    number. *)
Theorem confirmPayment_idempotent (value : string) (p : Page) :
  (¬ Exists (holds (normalize value)) (sampleSlots p) → confirmPayment value p = p) ∧
  (reachable p → normalize value = "" → confirmPayment value p = p) ∧
  (reachable p →
   ¬ Exists (holds (normalize value)) (sampleSlots (confirmPayment value p)) ∧
   confirmPayment value (confirmPayment value p) = confirmPayment value p).
Proof.
  assert (∀ q, ¬ Exists (holds (normalize value)) (sampleSlots q) →
               confirmPayment value q = q) as Hnoop.
  { intros q Hnone. unfold confirmPayment. by rewrite not_held_find. }
  split_and!.
  - apply Hnoop.
  - intros Hreach Hblank. apply Hnoop. rewrite Hblank.
    apply (ok_number _ (reachable_registry_ok p Hreach)).
  - intros Hreach.
    assert (¬ Exists (holds (normalize value)) (sampleSlots (confirmPayment value p)))
      as Hgone.
    { destruct (list_find (holds (normalize value)) (sampleSlots p))
        as [[i slot]|] eqn:Hfind.
      - rewrite (confirmPayment_found value p i slot Hfind). cbn.
        apply freed_number_gone; [|done].
        apply (ok_once _ (reachable_registry_ok p Hreach)).
      - unfold confirmPayment. rewrite Hfind.
        by apply list_find_None, Forall_Exists_neg in Hfind. }
    split; [done|]. by apply Hnoop.
Qed.

Lemma confirmPayment_idempotent_witness :
  ¬ Exists (holds (normalize "abc123")) (sampleSlots (confirmPayment "abc123" (initialPage 0))) ∧
  confirmPayment "abc123" (confirmPayment "abc123" (initialPage 0)) =
    confirmPayment "abc123" (initialPage 0).
Proof.
  refine (proj2 (proj2 (confirmPayment_idempotent "abc123" (initialPage 0))) _).
  apply reachable_initial.
Defined.

Lemma confirmPayment_slots_ext (value : string) (p q : Page) :
  sampleSlots p = sampleSlots q →
  sampleSlots (confirmPayment value p) = sampleSlots (confirmPayment value q) ∧
  feeDisplay (confirmPayment value p) =
    (if decide (Exists (holds (normalize value)) (sampleSlots p)) then None
     else feeDisplay p).
Proof.
  intros Heq. unfold confirmPayment. rewrite <- Heq.
  destruct (list_find _ _) as [[i slot]|] eqn:Hfind; cbn.
  - rewrite decide_True; [done|].
    apply list_find_Some in Hfind as (Hi & Hh & _).
    apply Exists_exists. exists slot. split; [|done]. by eapply list_elem_of_lookup_2.
  - rewrite decide_False; [done|].
    by apply list_find_None, Forall_Exists_neg in Hfind.
Qed.

(** X10.  [confirmPayment] reads the vehicle number from the form again and
    does not look at the quote on display.  Its effect on the slots is the
    same with or without a quote; and on a reachable page, after a quote for
    one parked vehicle, a confirmation under the number of another parked
    vehicle frees that other vehicle's slot, hides the quote, and leaves the
    quoted vehicle parked. *)
Theorem confirmPayment_ignores_quote (now : Z) (quoted paid : string) (p : Page) :
  sampleSlots (confirmPayment paid (handleRemoval now quoted p)) =
    sampleSlots (confirmPayment paid p) ∧
  (reachable p →
   normalize quoted ≠ normalize paid →
   Exists (holds (normalize quoted)) (sampleSlots p) →
   Exists (holds (normalize paid)) (sampleSlots p) →
   fee_vehicle <$> feeDisplay (handleRemoval now quoted p) = Some (normalize quoted) ∧
   feeDisplay (confirmPayment paid (handleRemoval now quoted p)) = None ∧
   Exists (holds (normalize quoted))
     (sampleSlots (confirmPayment paid (handleRemoval now quoted p))) ∧
   ¬ Exists (holds (normalize paid))
     (sampleSlots (confirmPayment paid (handleRemoval now quoted p)))).
Proof.
  pose proof (confirmPayment_slots_ext paid (handleRemoval now quoted p) p
                (handleRemoval_slots now quoted p)) as [Hslots Hfee].
  split; [exact Hslots|].
  intros Hreach Hdiff Hq Hp.
  pose proof (reachable_registry_ok p Hreach) as Hok.
  rewrite Hslots, Hfee, handleRemoval_slots.
  rewrite decide_True by done.
  destruct (held_find _ _ Hq) as [[j qslot] Hfindq].
  destruct (held_find _ _ Hp) as [[i pslot] Hfindp].
  rewrite (handleRemoval_found now quoted p j qslot); [|by eapply held_number_nonempty|done].
  rewrite (confirmPayment_found paid p i pslot Hfindp). cbn.
  split_and!; [done|done| |].
  - apply list_find_Some in Hfindq as (Hj & Hhq & _).
    apply list_find_Some in Hfindp as (Hi & Hhp & _).
    apply Exists_exists. exists qslot. split; [|done].
    apply list_elem_of_lookup. exists j.
    rewrite list_lookup_insert_ne; [done|].
    intros ->. rewrite Hi in Hj. injection Hj as ->.
    destruct Hhq as [_ Hnq]. destruct Hhp as [_ Hnp].
    rewrite Hnq in Hnp. by injection Hnp.
  - apply freed_number_gone; [|done]. apply (ok_once _ Hok).
Qed.

Lemma confirmPayment_ignores_quote_witness :
  fee_vehicle <$> feeDisplay
      (handleRemoval 9 "abc123" (handleParking 1 "k7" "car" (initialPage 0))) =
    Some (normalize "abc123") ∧
  feeDisplay (confirmPayment "k7"
      (handleRemoval 9 "abc123" (handleParking 1 "k7" "car" (initialPage 0)))) = None ∧
  Exists (holds (normalize "abc123"))
    (sampleSlots (confirmPayment "k7"
      (handleRemoval 9 "abc123" (handleParking 1 "k7" "car" (initialPage 0))))) ∧
  ¬ Exists (holds (normalize "k7"))
    (sampleSlots (confirmPayment "k7"
      (handleRemoval 9 "abc123" (handleParking 1 "k7" "car" (initialPage 0))))).
Proof.
  refine (proj2 (confirmPayment_ignores_quote 9 "abc123" "k7"
                   (handleParking 1 "k7" "car" (initialPage 0))) _ _ _ _).
  - apply (reachable_dispatch (ParkingSubmit 1 "k7" "car")). apply reachable_initial.
  - vm_compute. discriminate.
  - apply (bool_decide_unpack _). vm_compute. reflexivity.
  - apply (bool_decide_unpack _). vm_compute. reflexivity.
Defined.

(** ** Well-formed slots on reachable pages *)

Lemma slot_wf_newSlot (slotId : string) : slot_wf (newSlot slotId).
Proof. by cbn. Qed.

Lemma slot_wf_free (slot : Slot.t) : slot_wf (free slot).
Proof. by cbn. Qed.

Lemma slot_wf_park (number ty : string) (now : Z) (slot : Slot.t) :
  number ≠ "" → normalize number = number → ty ≠ "" →
  slot_wf (park number ty now slot).
Proof. intros Hn Hnf Ht. cbn. by exists number, ty, now. Qed.

Lemma slot_wf_dispatch (e : Event) (p : Page) :
  Forall slot_wf (sampleSlots p) → Forall slot_wf (sampleSlots (dispatch e p)).
Proof.
  intros Hwf. destruct e as [v|v|now n ty|now n|n| |]; cbn [dispatch].
  - unfold addParkingSlot. repeat case_decide; cbn; try done.
    apply Forall_app. split; [done|]. apply Forall_singleton, slot_wf_newSlot.
  - unfold removeParkingSlot. case_decide; [done|].
    destruct (list_find _ _) as [[i slot]|]; [|done].
    case_decide; [done|]. cbn. by apply Forall_delete.
  - unfold handleParking. case_decide as Hblank; [done|].
    case_decide; [done|].
    destruct (list_find _ _) as [[i slot]|]; [|done]. cbn.
    apply Forall_insert; [done|].
    apply slot_wf_park; [tauto|apply normalize_idempotent|tauto].
  - by rewrite handleRemoval_slots.
  - unfold confirmPayment.
    destruct (list_find _ _) as [[i slot]|]; [|done]. cbn.
    apply Forall_insert; [done|]. apply slot_wf_free.
  - done.
  - done.
Qed.

Lemma reachable_slot_wf (p : Page) : reachable p → Forall slot_wf (sampleSlots p).
Proof.
  induction 1 as [loaded|e p _ IH].
  - repeat constructor. cbn. exists "ABC123", "car", loaded. by split_and!.
  - by apply slot_wf_dispatch.
Qed.

(** X11.  On every reachable page the vehicle properties of a slot go with
    its status: an available slot has no [vehicleNumber], [vehicleType] or
    [entryTime]; an occupied slot has all three, its number is not empty and
    is in normal form (trimmed, upper case), and its type is not empty. *)
Theorem reachable_slot_fields (p : Page) (slot : Slot.t) :
  reachable p →
  slot ∈ sampleSlots p →
  (Slot.status slot = available →
   Slot.vehicleNumber slot = None ∧ Slot.vehicleType slot = None ∧
   Slot.entryTime slot = None) ∧
  (Slot.status slot = occupied →
   ∃ (number ty : string) (entry : Z),
     Slot.vehicleNumber slot = Some number ∧ Slot.vehicleType slot = Some ty ∧
     Slot.entryTime slot = Some entry ∧
     number ≠ "" ∧ normalize number = number ∧ ty ≠ "").
Proof.
  intros Hreach Hin.
  pose proof (reachable_slot_wf p Hreach) as Hwf.
  rewrite Forall_forall in Hwf. specialize (Hwf slot Hin).
  unfold slot_wf in Hwf.
  split; intros Hst; rewrite Hst in Hwf; exact Hwf.
Qed.

Lemma reachable_slot_fields_witness :
  (Slot.status (park "K 9" " van" 4 (newSlot "A1")) = available →
   Slot.vehicleNumber (park "K 9" " van" 4 (newSlot "A1")) = None ∧
   Slot.vehicleType (park "K 9" " van" 4 (newSlot "A1")) = None ∧
   Slot.entryTime (park "K 9" " van" 4 (newSlot "A1")) = None) ∧
  (Slot.status (park "K 9" " van" 4 (newSlot "A1")) = occupied →
   ∃ (number ty : string) (entry : Z),
     Slot.vehicleNumber (park "K 9" " van" 4 (newSlot "A1")) = Some number ∧
     Slot.vehicleType (park "K 9" " van" 4 (newSlot "A1")) = Some ty ∧
     Slot.entryTime (park "K 9" " van" 4 (newSlot "A1")) = Some entry ∧
     number ≠ "" ∧ normalize number = number ∧ ty ≠ "").
Proof.
  apply (reachable_slot_fields (handleParking 4 " k 9 " " van" (initialPage 0))).
  - apply (reachable_dispatch (ParkingSubmit 4 " k 9 " " van")). apply reachable_initial.
  - apply (bool_decide_unpack _). vm_compute. reflexivity.
Defined.

(** X12.  On every reachable page no two array positions carry the same slot
    id, and every id is non-empty and in normal form (trimmed, upper case). *)
Theorem reachable_ids_distinct (p : Page) :
  reachable p →
  (∀ (i j : nat) (a b : Slot.t),
      sampleSlots p !! i = Some a → sampleSlots p !! j = Some b →
      Slot.id a = Slot.id b → i = j) ∧
  (∀ slot : Slot.t,
      slot ∈ sampleSlots p → Slot.id slot ≠ "" ∧ normalize (Slot.id slot) = Slot.id slot).
Proof.
  intros Hreach. pose proof (reachable_registry_ok p Hreach) as [_ _ Hids Hnormal].
  split.
  - intros i j a b Hi Hj Hid.
    apply (proj1 (NoDup_alt _) Hids i j (Slot.id a)).
    + by rewrite list_lookup_fmap, Hi.
    + by rewrite list_lookup_fmap, Hj, Hid.
  - by apply Forall_forall.
Qed.

Lemma reachable_ids_distinct_witness :
  (∀ (i j : nat) (a b : Slot.t),
      sampleSlots (addParkingSlot " c7" (initialPage 0)) !! i = Some a →
      sampleSlots (addParkingSlot " c7" (initialPage 0)) !! j = Some b →
      Slot.id a = Slot.id b → i = j) ∧
  (∀ slot : Slot.t,
      slot ∈ sampleSlots (addParkingSlot " c7" (initialPage 0)) →
      Slot.id slot ≠ "" ∧ normalize (Slot.id slot) = Slot.id slot).
Proof.
  apply (reachable_ids_distinct (addParkingSlot " c7" (initialPage 0))).
  apply (reachable_dispatch (AddSlotClick " c7")). apply reachable_initial.
Defined.

(** ** Round trips *)

(** X13.  Admission and payment undo each other.  On a reachable page, after
    a successful [handleParking], a [confirmPayment] under any spelling of the
    number, with or without a quote in between, gives back the slots exactly
    as they were before the admission. *)
Theorem park_then_pay_restores_slots (now quoteTime : Z) (number ty value : string) (p : Page) :
  reachable p →
  normalize number ≠ "" →
  ty ≠ "" →
  ¬ Exists (holds (normalize number)) (sampleSlots p) →
  Exists isAvailable (sampleSlots p) →
  normalize value = normalize number →
  sampleSlots (confirmPayment value (handleParking now number ty p)) = sampleSlots p ∧
  sampleSlots (confirmPayment value
                 (handleRemoval quoteTime value (handleParking now number ty p))) =
    sampleSlots p.
Proof.
  intros Hreach Hn Ht Hfresh Hav Hsame.
  destruct (find_available _ Hav) as [[i slot] Hfind].
  pose proof (find_after_parking now number value ty p i slot Hn Ht Hfresh Hfind Hsame)
    as Hfound.
  assert (sampleSlots (confirmPayment value (handleParking now number ty p)) =
          sampleSlots p) as Hback.
  { rewrite (confirmPayment_found value _ i _ Hfound).
    rewrite (handleParking_admits now number ty p i slot) by assumption.
    cbn [showAlert setFeeDisplay setSlots setParkConfirm sampleSlots].
    rewrite insert_insert_same.
    apply list_find_Some in Hfind as (Hi & Hst & _).
    apply list_insert_id. rewrite Hi. f_equal.
    pose proof (reachable_slot_wf p Hreach) as Hwf.
    rewrite Forall_forall in Hwf.
    specialize (Hwf slot (list_elem_of_lookup_2 _ _ _ Hi)).
    unfold slot_wf in Hwf. unfold isAvailable in Hst. rewrite Hst in Hwf.
    destruct Hwf as (Hnum & Hty & Hen).
    destruct slot as [sid st num tyy en]. cbn in *. by subst. }
  split; [exact Hback|].
  rewrite <- Hback.
  apply (confirmPayment_slots_ext value _ _ (handleRemoval_slots _ _ _)).
Qed.

Lemma park_then_pay_restores_slots_witness :
  sampleSlots (confirmPayment "Q1 " (handleParking 3 " q1" "truck" (initialPage 0))) =
    sampleSlots (initialPage 0) ∧
  sampleSlots (confirmPayment "Q1 "
                 (handleRemoval 50 "Q1 " (handleParking 3 " q1" "truck" (initialPage 0)))) =
    sampleSlots (initialPage 0).
Proof.
  apply (park_then_pay_restores_slots 3 50 " q1" "truck" "Q1 " (initialPage 0)).
  - apply reachable_initial.
  - vm_compute. discriminate.
  - discriminate.
  - apply (bool_decide_unpack _). vm_compute. reflexivity.
  - apply (bool_decide_unpack _). vm_compute. reflexivity.
  - reflexivity.
Defined.

(** X14.  Adding a slot and removing it again undo each other.  After a
    successful [addParkingSlot], [removeParkingSlot] under any spelling of
    the id finds the new slot at the end of the array and gives back the
    slots exactly as they were. *)
Theorem add_then_remove_restores_slots (value again : string) (p : Page) :
  normalize value ≠ "" →
  ¬ Exists (hasId (normalize value)) (sampleSlots p) →
  normalize again = normalize value →
  list_find (hasId (normalize again)) (sampleSlots (addParkingSlot value p)) =
    Some (length (sampleSlots p), newSlot (normalize value)) ∧
  sampleSlots (removeParkingSlot again (addParkingSlot value p)) = sampleSlots p.
Proof.
  intros Hne Hnew Hsame.
  assert (addParkingSlot value p =
          showAlert ("Slot " +:+ normalize value +:+ " added successfully") "success"
            (setSlots (sampleSlots p ++ [newSlot (normalize value)]) p)) as ->.
  { unfold addParkingSlot. rewrite decide_False by done. by rewrite decide_False. }
  cbn [showAlert setSlots sampleSlots].
  assert (list_find (hasId (normalize again)) (sampleSlots p ++ [newSlot (normalize value)]) =
          Some (length (sampleSlots p), newSlot (normalize value))) as Hfind.
  { rewrite Hsame. apply list_find_Some. split_and!.
    - by apply list_lookup_middle.
    - done.
    - intros j other Hj Hlt Hid. apply Hnew.
      rewrite lookup_app_l in Hj by done.
      apply Exists_exists. exists other. split; [|done].
      by eapply list_elem_of_lookup_2. }
  split; [exact Hfind|].
  unfold removeParkingSlot. cbn [showAlert setSlots sampleSlots].
  rewrite decide_False by congruence.
  rewrite Hfind. rewrite decide_False by discriminate. cbn.
  rewrite delete_take_drop, take_app_length.
  rewrite drop_ge by (rewrite length_app; cbn; lia).
  apply app_nil_r.
Qed.

Lemma add_then_remove_restores_slots_witness :
  list_find (hasId (normalize "C3 ")) (sampleSlots (addParkingSlot " c3" (initialPage 0))) =
    Some (length (sampleSlots (initialPage 0)), newSlot (normalize " c3")) ∧
  sampleSlots (removeParkingSlot "C3 " (addParkingSlot " c3" (initialPage 0))) =
    sampleSlots (initialPage 0).
Proof.
  apply (add_then_remove_restores_slots " c3" "C3 " (initialPage 0)).
  - vm_compute. discriminate.
  - apply (bool_decide_unpack _). vm_compute. reflexivity.
  - reflexivity.
Defined.

(** ** Looking a vehicle up *)

(** Two positions that hold the same number are one position. *)
Lemma unique_holder (v : string) (slots : list Slot.t) (i j : nat) (a b : Slot.t) :
  (occurrences v slots ≤ 1)%nat →
  slots !! i = Some a → slots !! j = Some b →
  holds v a → holds v b → i = j.
Proof.
  revert i j. induction slots as [|slot l IH]; intros i j Honce Hi Hj Ha Hb; [done|].
  rewrite occurrences_cons in Honce.
  destruct i as [|i], j as [|j]; cbn in Hi, Hj.
  - done.
  - exfalso. injection Hi as ->. rewrite decide_True in Honce by done.
    assert (Exists (holds v) l) as Hex.
    { apply Exists_exists. exists b. split; [|done]. by eapply list_elem_of_lookup_2. }
    apply occurrences_pos in Hex. lia.
  - exfalso. injection Hj as ->. rewrite decide_True in Honce by done.
    assert (Exists (holds v) l) as Hex.
    { apply Exists_exists. exists a. split; [|done]. by eapply list_elem_of_lookup_2. }
    apply occurrences_pos in Hex. lia.
  - f_equal. apply IH; [|done..]. case_decide; lia.
Qed.

(** X15.  A parked vehicle is found under any spelling of its number.  On a
    reachable page, for an occupied slot with number [number], an input made
    of that number in any letter case, with any white space around it, makes
    [handleRemoval] show the quote of exactly that slot. *)
Theorem handleRemoval_any_spelling (now : Z) (pre variant post number : string)
    (p : Page) (slot : Slot.t) :
  reachable p →
  slot ∈ sampleSlots p →
  Slot.status slot = occupied →
  Slot.vehicleNumber slot = Some number →
  allWhiteSpace pre = true →
  allWhiteSpace post = true →
  JsString.toUpperCase variant = JsString.toUpperCase number →
  handleRemoval now (pre +:+ variant +:+ post) p =
    setFeeDisplay
      (Some (mkFeeDisplay number (Slot.entryTime slot) (parkingFee slot now))) p.
Proof.
  intros Hreach Hin Hst Hnum Hpre Hpost Hcase.
  pose proof (reachable_slot_wf p Hreach) as Hwf.
  rewrite Forall_forall in Hwf. specialize (Hwf slot Hin).
  unfold slot_wf in Hwf. rewrite Hst in Hwf.
  destruct Hwf as (n & ty & en & Hn & _ & _ & Hne & Hnf & _).
  rewrite Hnum in Hn. injection Hn as <-.
  assert (normalize (pre +:+ variant +:+ post) = number) as Hnorm.
  { rewrite normalize_pad by done. by rewrite (normalize_case _ _ Hcase). }
  assert (holds number slot) as Hh by done.
  assert (Exists (holds number) (sampleSlots p)) as Hex.
  { apply Exists_exists. by exists slot. }
  destruct (held_find _ _ Hex) as [[j found] Hfind].
  assert (found = slot) as ->.
  { apply list_elem_of_lookup in Hin as [i Hi].
    pose proof Hfind as (Hj & Hhf & _)%list_find_Some.
    pose proof (ok_once _ (reachable_registry_ok p Hreach) number) as Honce.
    pose proof (unique_holder number _ i j slot found Honce Hi Hj Hh Hhf) as ->.
    rewrite Hi in Hj. by injection Hj. }
  rewrite (handleRemoval_found now _ p j slot); rewrite Hnorm; done.
Qed.

Lemma handleRemoval_any_spelling_witness :
  handleRemoval 77 ("  " +:+ "aBc123" +:+ " ") (initialPage 0) =
    setFeeDisplay
      (Some (mkFeeDisplay "ABC123" (Some 0)
               (parkingFee (Slot.mk "B1" occupied (Some "ABC123") (Some "car") (Some 0)) 77)))
      (initialPage 0).
Proof.
  apply (handleRemoval_any_spelling 77 "  " "aBc123" " " "ABC123" (initialPage 0)
           (Slot.mk "B1" occupied (Some "ABC123") (Some "car") (Some 0))).
  - apply reachable_initial.
  - apply (bool_decide_unpack _). vm_compute. reflexivity.
  - reflexivity.
  - reflexivity.
  - reflexivity.
  - reflexivity.
  - reflexivity.
Defined.

(** ** What each screen can change *)

(** X16.  The operator's events (parking, quote, payment, cancel, hiding the
    confirmation) never add, remove, rename or reorder slots: the ids of
    [sampleSlots], in array order, are the same after the event. *)
Theorem operator_events_keep_ids (e : Event) (p : Page) :
  operatorEvent e = true →
  Slot.id <$> sampleSlots (dispatch e p) = Slot.id <$> sampleSlots p ∧
  length (sampleSlots (dispatch e p)) = length (sampleSlots p).
Proof.
  intros Hop.
  assert (Slot.id <$> sampleSlots (dispatch e p) = Slot.id <$> sampleSlots p) as Hids.
  { destruct e as [v|v|now n ty|now n|n| |]; try discriminate; cbn [dispatch].
    - unfold handleParking. repeat case_decide; try done.
      destruct (list_find _ _) as [[i slot]|] eqn:Hfind; [|done]. cbn.
      apply list_find_Some in Hfind as (Hi & _ & _).
      rewrite list_fmap_insert. apply list_insert_id.
      by rewrite list_lookup_fmap, Hi.
    - by rewrite handleRemoval_slots.
    - unfold confirmPayment.
      destruct (list_find _ _) as [[i slot]|] eqn:Hfind; [|done]. cbn.
      apply list_find_Some in Hfind as (Hi & _ & _).
      rewrite list_fmap_insert. apply list_insert_id.
      by rewrite list_lookup_fmap, Hi.
    - done.
    - done. }
  split; [exact Hids|].
  apply (f_equal length) in Hids. by rewrite !length_fmap in Hids.
Qed.

Lemma operator_events_keep_ids_witness :
  Slot.id <$> sampleSlots (dispatch (ConfirmClick "abc123") (initialPage 0)) =
    Slot.id <$> sampleSlots (initialPage 0) ∧
  length (sampleSlots (dispatch (ConfirmClick "abc123") (initialPage 0))) =
    length (sampleSlots (initialPage 0)).
Proof.
  apply (operator_events_keep_ids (ConfirmClick "abc123") (initialPage 0)).
  reflexivity.
Defined.

(** X17.  The admin's events (adding and removing a slot) never touch a
    parked vehicle: the occupied slots, with their numbers, types and entry
    times, are the same and in the same order after the event, and the two
    operator panels are as before. *)
Theorem admin_events_keep_vehicles (e : Event) (p : Page) :
  operatorEvent e = false →
  filter isOccupied (sampleSlots (dispatch e p)) = filter isOccupied (sampleSlots p) ∧
  parkConfirm (dispatch e p) = parkConfirm p ∧
  feeDisplay (dispatch e p) = feeDisplay p.
Proof.
  intros Hop. destruct e as [v|v|now n ty|now n|n| |]; try discriminate; cbn [dispatch].
  - unfold addParkingSlot. repeat case_decide; cbn; try done.
    split; [|done]. rewrite filter_app, filter_cons_False by discriminate.
    by rewrite filter_nil, app_nil_r.
  - unfold removeParkingSlot. case_decide; [done|].
    destruct (list_find _ _) as [[i slot]|] eqn:Hfind; [|done].
    case_decide as Hocc; [done|]. cbn. split; [|done].
    apply list_find_Some in Hfind as (Hi & _ & _).
    destruct (insert_middle _ i slot slot Hi) as (Hsplit & _ & ->).
    rewrite Hsplit at 3.
    rewrite !filter_app. by rewrite filter_cons_False.
Qed.

Lemma admin_events_keep_vehicles_witness :
  filter isOccupied (sampleSlots (dispatch (RemoveSlotClick "a2") (initialPage 0))) =
    filter isOccupied (sampleSlots (initialPage 0)) ∧
  parkConfirm (dispatch (RemoveSlotClick "a2") (initialPage 0)) = parkConfirm (initialPage 0) ∧
  feeDisplay (dispatch (RemoveSlotClick "a2") (initialPage 0)) = feeDisplay (initialPage 0).
Proof.
  apply (admin_events_keep_vehicles (RemoveSlotClick "a2") (initialPage 0)).
  reflexivity.
Defined.

(** ** Counting vehicles *)

(** X18.  A successful [handleParking] raises the number of occupied slots
    by exactly one, and a [confirmPayment] that finds its vehicle lowers it by
    exactly one. *)
Theorem occupied_count_steps (now : Z) (number ty value : string) (p : Page) :
  (normalize number ≠ "" → ty ≠ "" →
   ¬ Exists (holds (normalize number)) (sampleSlots p) →
   Exists isAvailable (sampleSlots p) →
   length (filter isOccupied (sampleSlots (handleParking now number ty p))) =
     S (length (filter isOccupied (sampleSlots p)))) ∧
  (Exists (holds (normalize value)) (sampleSlots p) →
   S (length (filter isOccupied (sampleSlots (confirmPayment value p)))) =
     length (filter isOccupied (sampleSlots p))).
Proof.
  split.
  - intros Hn Ht Hfresh Hav.
    destruct (find_available _ Hav) as [[i slot] Hfind].
    rewrite (handleParking_admits now number ty p i slot) by assumption. cbn.
    apply list_find_Some in Hfind as (Hi & Hst & _).
    destruct (insert_middle _ i slot (park (normalize number) ty now slot) Hi)
      as (Hsplit & -> & _).
    rewrite Hsplit at 3. rewrite !filter_app, !length_app.
    rewrite filter_cons_True by done.
    rewrite (filter_cons_False _ slot) by (unfold isOccupied; rewrite Hst; discriminate).
    cbn. lia.
  - intros Hheld.
    destruct (held_find _ _ Hheld) as [[i slot] Hfind].
    rewrite (confirmPayment_found value p i slot Hfind). cbn.
    apply list_find_Some in Hfind as (Hi & [Hst _] & _).
    destruct (insert_middle _ i slot (free slot) Hi) as (Hsplit & -> & _).
    rewrite Hsplit at 3. rewrite !filter_app, !length_app.
    rewrite filter_cons_False by discriminate.
    rewrite (filter_cons_True _ slot) by done.
    cbn. lia.
Qed.

Lemma occupied_count_steps_witness :
  S (length (filter isOccupied (sampleSlots (confirmPayment " abc123" (initialPage 0))))) =
    length (filter isOccupied (sampleSlots (initialPage 0))).
Proof.
  refine (proj2 (occupied_count_steps 0 "" "" " abc123" (initialPage 0)) _).
  apply (bool_decide_unpack _). vm_compute. reflexivity.
Defined.

(** ** The table of parked vehicles *)

Lemma table_rows (now : Z) (slots : list Slot.t) :
  Forall slot_wf slots →
  (∀ v : string, (occurrences v slots ≤ 1)%nat) →
  ∃ rows : list VehicleRow,
    mapM (vehicleRow now) (filter isOccupied slots) = Some rows ∧
    row_slot <$> rows = Slot.id <$> filter isOccupied slots ∧
    (∀ v : string, v ∈ row_number <$> rows ↔ Exists (holds v) slots) ∧
    NoDup (row_number <$> rows) ∧
    Forall (λ row, is_Some (row_entry row) ∧
                   row_duration row = calculateDuration (ADate (row_entry row)) now) rows.
Proof.
  induction slots as [|slot l IH]; intros Hwf Honce.
  - exists []. split_and!; try done.
    + intros v. split; [by intros ?%elem_of_nil|by intros ?%Exists_nil].
    + constructor.
  - apply Forall_cons in Hwf as [Hslot Hwf].
    destruct (IH Hwf) as (rows & Hrows & Hids & Hmem & Hnodup & Hdur).
    { intros v. specialize (Honce v). rewrite occurrences_cons in Honce. lia. }
    destruct (decide (isOccupied slot)) as [Hocc|Hocc].
    + rewrite filter_cons_True by done.
      unfold slot_wf in Hslot. unfold isOccupied in Hocc. rewrite Hocc in Hslot.
      destruct Hslot as (n & ty & en & Hn & Hty & Hen & _).
      assert (∀ v, holds v slot ↔ v = n) as Hholds.
      { intros v. unfold holds. rewrite Hn. split; [by intros [_ [= ->]]|by intros ->]. }
      exists (mkVehicleRow (Slot.id slot) n (capitalize ty) (Some en)
                (calculateDuration (ADate (Some en)) now) :: rows).
      split_and!.
      * assert (vehicleRow now slot =
                Some (mkVehicleRow (Slot.id slot) n (capitalize ty) (Some en)
                        (calculateDuration (ADate (Some en)) now))) as Hrow.
        { unfold vehicleRow. by rewrite Hn, Hty, Hen. }
        cbn [mapM]. rewrite Hrow, Hrows. done.
      * cbn. by rewrite Hids.
      * intros v. cbn. rewrite elem_of_cons, Exists_cons, Hmem, Hholds. done.
      * cbn. apply NoDup_cons. split; [|done].
        intros Hdup. apply Hmem in Hdup. apply occurrences_pos in Hdup.
        specialize (Honce n). rewrite occurrences_cons in Honce.
        rewrite decide_True in Honce by (by apply Hholds). lia.
      * apply Forall_cons. split; [|done]. cbn. by split.
    + rewrite filter_cons_False by done.
      exists rows. split_and!; try done.
      intros v. rewrite Exists_cons, Hmem. split; [tauto|].
      intros [[Hst _]|?]; [|done]. by destruct Hocc.
Qed.



(** ** The operator's slot grid *)



(** ** Blank input and spelling *)

Lemma toUpperCase_empty (s : string) : JsString.toUpperCase s = "" → s = "".
Proof. by destruct s. Qed.

Lemma trimEnd_empty (s : string) : JsString.trimEnd s = "" → allWhiteSpace s = true.
Proof.
  induction s as [|c r IH]; [done|].
  cbn. destruct (JsString.trimEnd r); [|discriminate].
  destruct (JsString.isWhiteSpace c); [|discriminate].
  intros _. by apply IH.
Qed.

Lemma trimStart_blank_inv (s : string) :
  allWhiteSpace (JsString.trimStart s) = true → allWhiteSpace s = true.
Proof.
  induction s as [|c r IH]; [done|].
  cbn. destruct (JsString.isWhiteSpace c) eqn:Hc; [exact IH|].
  cbn. by rewrite Hc.
Qed.


